(** * TalentScout AI: the PCM codec, the playback scheduler and the session

    A shallow embedding of [services/geminiService.ts] and
    [utils/audioUtils.ts].

    Conventions of the embedding.
    - A JavaScript string is the list of its UTF-16 code units ([jsstring]).
    - A [Uint8Array] is a [list byte]; an [Int16Array] is a list of [Z] in
      the signed 16-bit range, the wrap-around of the store being written
      out in [ToInt16].
    - A JavaScript number that holds a sample is a [float]: a finite value
      (an exact rational), one of the two infinities, or NaN.  Every
      product and quotient the codec computes is exact in binary64 (a
      binary32 sample times a 15 or 16 bit constant, a 16 bit integer
      divided by a power of two), so the rational is the value the
      program computes.  Times on the audio clock are rationals.
    - An exception is a value of [exn]; code that may throw returns a
      [result]. *)

From Stdlib Require Import ZArith NArith QArith Qabs Qround List Lia Lqa Bool.
From Stdlib Require Import Strings.Byte Strings.Ascii Strings.String.
From stdpp Require Import base list.
Import ListNotations.

Local Open Scope Z_scope.

(** Linear arithmetic with division and remainder by constants. *)
Ltac divlia := Z.to_euclidean_division_equations; lia.

(** ** Exceptions *)

Inductive exn : Type :=
| RangeError
| InvalidCharacterError
| NotSupportedError
| SyntaxError
| Error (msg : string).

Inductive result (A : Type) : Type :=
| Ok (a : A)
| Throw (e : exn).

Arguments Ok {A} a.
Arguments Throw {A} e.

Definition bind {A B : Type} (r : result A) (k : A -> result B) : result B :=
  match r with
  | Ok a => k a
  | Throw e => Throw e
  end.

Notation "'let!' x ':=' r 'in' k" := (bind r (fun x => k))
  (at level 10, x name, r at level 100, k at level 200).

Definition is_ok {A : Type} (r : result A) : bool :=
  match r with Ok _ => true | Throw _ => false end.

(** ** Strings and bytes *)

Definition jsstring : Type := list N.

(** A string literal of the source, as code units. *)
Definition js (s : string) : jsstring :=
  List.map N_of_ascii (list_ascii_of_string s).

(** The store into a [Uint8Array] element: the value modulo 256. *)
Definition ToUint8 (n : N) : byte :=
  match Byte.of_N (n mod 256) with
  | Some b => b
  | None => x00
  end.

(** ** Base64: the platform's [btoa] and [atob]

    [btoa] and [atob] are browser built-ins.  They are modelled after the
    HTML standard: [btoa] throws on a code unit above U+00FF and otherwise
    is the base64 encoding of RFC 4648 with padding; [atob] is the
    "forgiving-base64 decode". *)

Module Base64.

Local Open Scope N_scope.

(** The base64 alphabet: the character of a 6-bit value. *)
Definition b64char (i : N) : N :=
  if i <? 26 then i + 65
  else if i <? 52 then i + 71
  else if i <? 62 then i - 4
  else if i =? 62 then 43
  else 47.

(** The 6-bit value of a character of the alphabet. *)
Definition b64val (c : N) : option N :=
  if (65 <=? c) && (c <=? 90) then Some (c - 65)
  else if (97 <=? c) && (c <=? 122) then Some (c - 71)
  else if (48 <=? c) && (c <=? 57) then Some (c + 4)
  else if c =? 43 then Some 62
  else if c =? 47 then Some 63
  else None.

(** U+003D, the padding character. *)
Definition pad : N := 61.

Fixpoint encode_groups (l : list N) : list N :=
  match l with
  | a :: b :: c :: r =>
      b64char (a / 4) :: b64char ((a mod 4) * 16 + b / 16)
        :: b64char ((b mod 16) * 4 + c / 64) :: b64char (c mod 64)
        :: encode_groups r
  | [a; b] =>
      [b64char (a / 4); b64char ((a mod 4) * 16 + b / 16);
       b64char ((b mod 16) * 4); pad]
  | [a] => [b64char (a / 4); b64char ((a mod 4) * 16); pad; pad]
  | [] => []
  end.

Definition btoa (s : jsstring) : result jsstring :=
  if forallb (fun c => c <=? 255) s then Ok (encode_groups s)
  else Throw InvalidCharacterError.

(** ASCII whitespace: TAB, LF, FF, CR and SPACE. *)
Definition is_ascii_whitespace (c : N) : bool :=
  (c =? 9) || (c =? 10) || (c =? 12) || (c =? 13) || (c =? 32).

(** Step 2 of forgiving-base64 decode: when the length is a multiple of
    four, one or two trailing padding characters are removed. *)
Definition strip_padding (d : list N) : list N :=
  if N.of_nat (length d) mod 4 =? 0 then
    match rev d with
    | c1 :: c2 :: r =>
        if c1 =? pad then (if c2 =? pad then rev r else rev (c2 :: r))
        else d
    | [c1] => if c1 =? pad then [] else d
    | [] => d
    end
  else d.

Fixpoint sextets (d : list N) : option (list N) :=
  match d with
  | [] => Some []
  | c :: r =>
      match b64val c, sextets r with
      | Some v, Some vs => Some (v :: vs)
      | _, _ => None
      end
  end.

(** The buffer of 6-bit values, emptied three bytes at a time; twelve
    left-over bits give one byte and eighteen give two. *)
Fixpoint decode_groups (v : list N) : list N :=
  match v with
  | a :: b :: c :: d :: r =>
      (a * 4 + b / 16) :: ((b mod 16) * 16 + c / 4) :: ((c mod 4) * 64 + d)
        :: decode_groups r
  | [a; b; c] => [a * 4 + b / 16; (b mod 16) * 16 + c / 4]
  | [a; b] => [a * 4 + b / 16]
  | _ => []
  end.

Definition atob (s : jsstring) : result jsstring :=
  let d := strip_padding (List.filter (fun c => negb (is_ascii_whitespace c)) s) in
  if N.of_nat (length d) mod 4 =? 1 then Throw InvalidCharacterError
  else
    match sextets d with
    | Some v => Ok (decode_groups v)
    | None => Throw InvalidCharacterError
    end.

End Base64.

(** ** utils/audioUtils.ts *)

(** [decodeBase64]: [atob], then one byte per code unit. *)
Definition decodeBase64 (base64 : jsstring) : result (list byte) :=
  let! binaryString := Base64.atob base64 in
  Ok (List.map ToUint8 binaryString).

(** [encodeBase64]: one code unit per byte, then [btoa]. *)
Definition encodeBase64 (bytes : list byte) : result jsstring :=
  let binary := List.map Byte.to_N bytes in
  Base64.btoa binary.

(** ** Numbers that hold samples *)

Inductive float : Type :=
| Fin (q : Q)
| PosInf
| NegInf
| NaN.

Definition Qltb (p q : Q) : bool := negb (Qle_bool q p).

(** [a < b] of the language: false when either side is NaN. *)
Definition flt (a b : float) : bool :=
  match a, b with
  | NaN, _ | _, NaN => false
  | Fin p, Fin q => Qltb p q
  | NegInf, NegInf => false
  | NegInf, _ => true
  | _, NegInf => false
  | PosInf, _ => false
  | Fin _, PosInf => true
  end.

Definition Math_min (a b : float) : float :=
  match a, b with
  | NaN, _ | _, NaN => NaN
  | _, _ => if flt b a then b else a
  end.

Definition Math_max (a b : float) : float :=
  match a, b with
  | NaN, _ | _, NaN => NaN
  | _, _ => if flt a b then b else a
  end.

(** The sign of a number that is not NaN: -1, 0 or 1. *)
Definition fsign (a : float) : Z :=
  match a with
  | Fin q => Z.sgn (Qnum q)
  | PosInf => 1
  | NegInf => -1
  | NaN => 0
  end.

Definition fmul (a b : float) : float :=
  match a, b with
  | NaN, _ | _, NaN => NaN
  | Fin p, Fin q => Fin (p * q)
  | _, _ =>
      match fsign a * fsign b with
      | Z0 => NaN
      | Zpos _ => PosInf
      | Zneg _ => NegInf
      end
  end.

Definition fadd (a b : float) : float :=
  match a, b with
  | NaN, _ | _, NaN => NaN
  | Fin p, Fin q => Fin (p + q)
  | PosInf, NegInf | NegInf, PosInf => NaN
  | PosInf, _ | _, PosInf => PosInf
  | NegInf, _ | _, NegInf => NegInf
  end.

Definition fdiv (a b : float) : float :=
  match a, b with
  | NaN, _ | _, NaN => NaN
  | Fin p, Fin q =>
      if Qeq_bool q 0 then
        match Z.sgn (Qnum p) with
        | Z0 => NaN
        | Zpos _ => PosInf
        | Zneg _ => NegInf
        end
      else Fin (p / q)
  | Fin _, _ => Fin 0
  | _, Fin q =>
      match fsign a * (if Qltb q 0 then -1 else 1) with
      | Zneg _ => NegInf
      | _ => PosInf
      end
  | _, _ => NaN
  end.

(** Rounding toward zero. *)
Definition trunc (q : Q) : Z := Z.quot (Qnum q) (Z.pos (Qden q)).

(** The store into an [Int16Array] element: NaN and the infinities give 0,
    a finite number is truncated, reduced modulo 2^16 and read as
    signed. *)
Definition ToInt16 (x : float) : Z :=
  match x with
  | Fin q =>
      let int16bit := trunc q mod 65536 in
      if 32768 <=? int16bit then int16bit - 65536 else int16bit
  | _ => 0
  end.

(** The conversion of an [unsigned long] argument of a platform method. *)
Definition ToUint32 (x : float) : Z :=
  match x with
  | Fin q => trunc q mod 4294967296
  | _ => 0
  end.

(** The two bytes of an [Int16Array] element in its buffer, low byte
    first. *)
Definition int16_bytes (n : Z) : list byte :=
  let u := n mod 65536 in
  [ToUint8 (Z.to_N (u mod 256)); ToUint8 (Z.to_N (u / 256))].

(** [new Uint8Array(int16.buffer)] *)
Definition Uint8Array_of_Int16Array (a : list Z) : list byte :=
  List.flat_map int16_bytes a.

(** The element of an [Int16Array] over two bytes of a buffer. *)
Definition int16_of_bytes (lo hi : byte) : Z :=
  let u := Z.of_N (Byte.to_N lo) + 256 * Z.of_N (Byte.to_N hi) in
  if 32768 <=? u then u - 65536 else u.

Fixpoint int16_pairs (data : list byte) : list Z :=
  match data with
  | lo :: hi :: r => int16_of_bytes lo hi :: int16_pairs r
  | _ => []
  end.

(** [new Int16Array(data.buffer)]: a [RangeError] when the byte length of
    the buffer is odd. *)
Definition Int16Array_of_buffer (data : list byte) : result (list Z) :=
  if Nat.even (length data) then Ok (int16_pairs data) else Throw RangeError.

(** *** Audio buffers of the platform *)

Record AudioBuffer : Type := mkAudioBuffer {
  numberOfChannels : nat;
  buffer_length : nat;
  sampleRate : Z;
  channels : list (list float)
}.

(** [buffer.duration], in seconds. *)
Definition duration (b : AudioBuffer) : Q :=
  inject_Z (Z.of_nat (buffer_length b)) / inject_Z (sampleRate b).

(** [ctx.createBuffer(numberOfChannels, length, sampleRate)]: silence of
    the given size.  The method throws [NotSupportedError] for an argument
    that is zero or out of range; every implementation accepts 1 to 32
    channels and rates of 8000 to 96000 Hz, the range taken here. *)
Definition createBuffer (numChannels : nat) (len : float) (rate : Z)
  : result AudioBuffer :=
  let n := Z.to_nat (ToUint32 len) in
  if (1 <=? numChannels)%nat && (numChannels <=? 32)%nat
     && (1 <=? n)%nat && (8000 <=? rate) && (rate <=? 96000)
  then Ok (mkAudioBuffer numChannels n rate
             (replicate numChannels (replicate n (Fin 0))))
  else Throw NotSupportedError.

(** How often the body of [for (let i = 0; i < bound; i++)] runs.  The
    bound is infinite only for zero channels, where [createBuffer] has
    thrown before the loop. *)
Definition loop_count (bound : float) : nat :=
  match bound with
  | Fin q => Z.to_nat (Qceiling q)
  | _ => 0%nat
  end.

(** [dataInt16[k] / 32768.0]; an index out of range reads [undefined],
    which divides to NaN. *)
Definition sample_at (dataInt16 : list Z) (k : nat) : float :=
  match dataInt16 !! k with
  | Some v => fdiv (Fin (inject_Z v)) (Fin 32768)
  | None => NaN
  end.

(** The inner loop over [i], for one channel; a store past the end of
    [channelData] is ignored. *)
Definition fill_channel (dataInt16 : list Z) (numChannels channel : nat)
    (frameCount : float) (channelData : list float) : list float :=
  fold_left
    (fun cd i => <[i := sample_at dataInt16 (i * numChannels + channel)]> cd)
    (seq 0 (loop_count frameCount)) channelData.

(** The outer loop over [channel]. *)
Definition fill_channels (dataInt16 : list Z) (numChannels : nat)
    (frameCount : float) (chans : list (list float)) : list (list float) :=
  fold_left
    (fun cs channel =>
       match cs !! channel with
       | Some cd =>
           <[channel := fill_channel dataInt16 numChannels channel frameCount cd]> cs
       | None => cs
       end)
    (seq 0 numChannels) chans.

Definition decodeAudioData (data : list byte) (rate : Z) (numChannels : nat)
  : result AudioBuffer :=
  let! dataInt16 := Int16Array_of_buffer data in
  let frameCount :=
    fdiv (Fin (inject_Z (Z.of_nat (length dataInt16))))
         (Fin (inject_Z (Z.of_nat numChannels))) in
  let! buffer := createBuffer numChannels frameCount rate in
  Ok (mkAudioBuffer (numberOfChannels buffer) (buffer_length buffer)
        (sampleRate buffer)
        (fill_channels dataInt16 numChannels frameCount (channels buffer))).

(** *** The outbound chunk *)

Record Blob : Type := mkBlob {
  blob_data : jsstring;
  mimeType : jsstring
}.

(** [Math.max(-1, Math.min(1, x))], the clamp of [createPcmBlob]. *)
Definition clamp (x : float) : float :=
  Math_max (Fin (-1)) (Math_min (Fin 1) x).

(** The conversion of one sample in [createPcmBlob]. *)
Definition pcm_sample (x : float) : float :=
  let s := clamp x in
  if flt s (Fin 0) then fmul s (Fin 32768) else fmul s (Fin 32767).

Definition createPcmBlob (data : list float) : result Blob :=
  let int16 := List.map (fun x => ToInt16 (pcm_sample x)) data in
  let! text := encodeBase64 (Uint8Array_of_Int16Array int16) in
  Ok (mkBlob text (js "audio/pcm;rate=16000")).

(** ** services/geminiService.ts: the interview session *)

(** *** Inbound messages

    The fields of [LiveServerMessage] the session reads, each optional as
    in the source's [?.] chains. *)

Record InlineData : Type := mkInlineData {
  inline_data : option jsstring
}.

Record Part : Type := mkPart {
  inlineData : option InlineData
}.

Record ModelTurn : Type := mkModelTurn {
  parts : option (list Part)
}.

Record ServerContent : Type := mkServerContent {
  interrupted : option bool;
  modelTurn : option ModelTurn
}.

Record LiveServerMessage : Type := mkMessage {
  serverContent : option ServerContent
}.

(** [message.serverContent?.interrupted], as a condition. *)
Definition message_interrupted (message : LiveServerMessage) : bool :=
  match serverContent message with
  | Some sc =>
      match interrupted sc with
      | Some b => b
      | None => false
      end
  | None => false
  end.

(** [message.serverContent?.modelTurn?.parts?.[0]?.inlineData?.data] *)
Definition message_audio (message : LiveServerMessage) : option jsstring :=
  match serverContent message with
  | Some sc =>
      match modelTurn sc with
      | Some mt =>
          match parts mt with
          | Some (p :: _) =>
              match inlineData p with
              | Some d => inline_data d
              | None => None
              end
          | _ => None
          end
      | None => None
      end
  | None => None
  end.

(** *** Observable effects *)

Inductive event : Type :=
| VolumeChange (radicand : float)
    (** [onVolumeChange(Math.sqrt(radicand))] *)
| SendRealtimeInput (media : Blob)
| SourceStop (source : nat)
| SourceStart (source : nat) (when : Q) (buffer : AudioBuffer)
| ConsoleError (msg : string)
| ErrorCallback (msg : string)
| Cleanup
| Disconnect
| Connect
| Uncaught (e : exn).

(** *** The session object

    The audio contexts, the clean-up closure and the three callbacks are
    recorded by whether they are set.  [sources] is the [Set] of source
    nodes in insertion order, a node being the number [createBufferSource]
    gave it.  [starting] holds between the two halves of [start], and
    [processor] once [startAudioStreaming] has installed the capture
    callback. *)

Record InterviewSession : Type := mkSession {
  active : bool;
  inputAudioContext : bool;
  outputAudioContext : bool;
  nextStartTime : Q;
  sources : list nat;
  cleanup : bool;
  onVolumeChange : bool;
  onDisconnect : bool;
  onError : bool;
  starting : bool;
  processor : bool;
  next_source : nat
}.

Definition set_active (b : bool) (s : InterviewSession) : InterviewSession :=
  mkSession b (inputAudioContext s) (outputAudioContext s) (nextStartTime s)
    (sources s) (cleanup s) (onVolumeChange s) (onDisconnect s) (onError s)
    (starting s) (processor s) (next_source s).

Definition set_contexts (s : InterviewSession) : InterviewSession :=
  mkSession (active s) true true (nextStartTime s)
    (sources s) (cleanup s) (onVolumeChange s) (onDisconnect s) (onError s)
    (starting s) (processor s) (next_source s).

Definition set_nextStartTime (t : Q) (s : InterviewSession) : InterviewSession :=
  mkSession (active s) (inputAudioContext s) (outputAudioContext s) t
    (sources s) (cleanup s) (onVolumeChange s) (onDisconnect s) (onError s)
    (starting s) (processor s) (next_source s).

Definition set_sources (l : list nat) (s : InterviewSession) : InterviewSession :=
  mkSession (active s) (inputAudioContext s) (outputAudioContext s)
    (nextStartTime s) l (cleanup s) (onVolumeChange s) (onDisconnect s)
    (onError s) (starting s) (processor s) (next_source s).

Definition set_cleanup (s : InterviewSession) : InterviewSession :=
  mkSession (active s) (inputAudioContext s) (outputAudioContext s)
    (nextStartTime s) (sources s) true (onVolumeChange s) (onDisconnect s)
    (onError s) (starting s) (processor s) (next_source s).

Definition set_starting (b : bool) (s : InterviewSession) : InterviewSession :=
  mkSession (active s) (inputAudioContext s) (outputAudioContext s)
    (nextStartTime s) (sources s) (cleanup s) (onVolumeChange s)
    (onDisconnect s) (onError s) b (processor s) (next_source s).

Definition set_processor (s : InterviewSession) : InterviewSession :=
  mkSession (active s) (inputAudioContext s) (outputAudioContext s)
    (nextStartTime s) (sources s) (cleanup s) (onVolumeChange s)
    (onDisconnect s) (onError s) (starting s) true (next_source s).

Definition set_next_source (n : nat) (s : InterviewSession) : InterviewSession :=
  mkSession (active s) (inputAudioContext s) (outputAudioContext s)
    (nextStartTime s) (sources s) (cleanup s) (onVolumeChange s)
    (onDisconnect s) (onError s) (starting s) (processor s) n.

(** [new InterviewSession(context)], and the three callbacks as the
    application assigns them. *)
Definition new_session : InterviewSession :=
  mkSession false false false 0 [] false false false false false false 0.

Definition app_session : InterviewSession :=
  mkSession false false false 0 [] false true true true false false 0.

(** [Math.max] of two finite numbers. *)
Definition Math_max_Q (a b : Q) : Q := if Qltb a b then b else a.

(** [stop()] *)
Definition stop (s : InterviewSession) : InterviewSession * list event :=
  (set_active false s,
   (if cleanup s then [Cleanup] else [])
     ++ (if onDisconnect s then [Disconnect] else [])).

(** [start()] up to its [await]: the guard, the flag and the two audio
    contexts. *)
Definition start (s : InterviewSession) : InterviewSession * list event :=
  if active s then (s, [])
  else (set_starting true (set_contexts (set_active true s)), []).

(** [start()] after its [await]: with the microphone granted the
    connection is requested and the clean-up closure stored; a rejection
    goes through the [catch]. *)
Definition start_resume (granted : bool) (s : InterviewSession)
  : InterviewSession * list event :=
  if starting s then
    if granted then (set_cleanup (set_starting false s), [Connect])
    else
      let (s', evs) := stop (set_starting false s) in
      (s',
       ConsoleError "Failed to start interview:"
         :: (if onError s
             then [ErrorCallback "Failed to access microphone or connect to AI."]
             else [])
         ++ evs)
  else (s, []).

(** [startAudioStreaming], called by [onopen]. *)
Definition startAudioStreaming (s : InterviewSession)
  : InterviewSession * list event :=
  if inputAudioContext s then (set_processor s, []) else (s, []).

(** [processor.onaudioprocess] *)
Definition onaudioprocess (inputData : list float) (s : InterviewSession)
  : InterviewSession * list event :=
  if negb (active s) then (s, [])
  else
    let sum := fold_left (fun acc x => fadd acc (fmul x x)) inputData (Fin 0) in
    let radicand :=
      fdiv sum (Fin (inject_Z (Z.of_nat (length inputData)))) in
    (s,
     (if onVolumeChange s then [VolumeChange radicand] else [])
       ++ match createPcmBlob inputData with
          | Ok pcmBlob => [SendRealtimeInput pcmBlob]
          | Throw e => [Uncaught e]
          end).

(** [handleServerMessage]; [currentTime] is the reading of
    [outputAudioContext.currentTime] the handler takes, and an absent or
    empty payload is a false condition.  The decoder has no suspension
    point of its own, so the continuation of the handler's [await] runs
    before the next message is delivered: the handler is one step. *)
Definition handleServerMessage (currentTime : Q) (message : LiveServerMessage)
    (s : InterviewSession) : InterviewSession * list event :=
  if negb (outputAudioContext s) then (s, [])
  else if message_interrupted message then
    (set_nextStartTime 0 (set_sources [] s), List.map SourceStop (sources s))
  else
    match message_audio message with
    | Some ((_ :: _) as base64Audio) =>
        let s1 :=
          set_nextStartTime (Math_max_Q (nextStartTime s) currentTime) s in
        match (let! bytes := decodeBase64 base64Audio in
               decodeAudioData bytes 24000 1) with
        | Ok audioBuffer =>
            let source := next_source s1 in
            (set_sources (sources s1 ++ [source])
               (set_nextStartTime (nextStartTime s1 + duration audioBuffer)
                  (set_next_source (S source) s1)),
             [SourceStart source (nextStartTime s1) audioBuffer])
        | Throw _ => (s1, [ConsoleError "Error decoding audio response"])
        end
    | _ => (s, [])
    end.

(** [source.onended] *)
Definition onended (source : nat) (s : InterviewSession)
  : InterviewSession * list event :=
  (set_sources (List.filter (fun x => negb (x =? source)%nat) (sources s)) s, []).

(** The calls and the platform events that reach a session. *)
Inductive input : Type :=
| CallStart
| MicrophoneResult (granted : bool)
| CallStop
| OnOpen
| OnMessage (currentTime : Q) (message : LiveServerMessage)
| OnClose
| OnError
| AudioProcess (inputData : list float)
| Ended (source : nat).

Definition step (s : InterviewSession) (i : input)
  : InterviewSession * list event :=
  match i with
  | CallStart => start s
  | MicrophoneResult granted => start_resume granted s
  | CallStop => stop s
  | OnOpen => startAudioStreaming s
  | OnMessage currentTime message => handleServerMessage currentTime message s
  | OnClose => stop s
  | OnError =>
      let (s', evs) := stop s in
      (s',
       ConsoleError "Interview connection error"
         :: (if onError s then [ErrorCallback "Connection error occurred."] else [])
         ++ evs)
  | AudioProcess inputData =>
      if processor s then onaudioprocess inputData s else (s, [])
  | Ended source => onended source s
  end.

(** A run: the final state and the effects in order. *)
Fixpoint run (s : InterviewSession) (inputs : list input)
  : InterviewSession * list event :=
  match inputs with
  | [] => (s, [])
  | i :: rest =>
      let (s1, e1) := step s i in
      let (s2, e2) := run s1 rest in
      (s2, e1 ++ e2)
  end.

Definition audio_message (data : jsstring) : LiveServerMessage :=
  mkMessage (Some (mkServerContent None
    (Some (mkModelTurn (Some [mkPart (Some (mkInlineData (Some data)))]))))).

Definition interrupted_message (payload : option jsstring) : LiveServerMessage :=
  mkMessage (Some (mkServerContent (Some true)
    (Some (mkModelTurn (Some [mkPart (Some (mkInlineData payload))]))))).

(** ** JSON: the platform's [JSON.parse]

    [JSON.parse] is a built-in.  It is modelled after the JSON grammar
    (ECMA-404) as a recursive-descent parser, the fuel being the length of
    the text.  A number keeps the exact decimal value of its literal, as
    [mantissa * 10 ^ exponent]; an object keeps one binding per key, the
    last one written winning. *)

Module JSON.

Local Open Scope N_scope.

#[local] Set Warnings "-register-all".

Inductive value : Type :=
| Null
| Bool (b : bool)
| Number (mantissa exponent : Z)
| String (s : jsstring)
| Array (items : list value)
| Object (fields : list (jsstring * value)).

Fixpoint jsstring_eqb (a b : jsstring) : bool :=
  match a, b with
  | [], [] => true
  | c :: a', d :: b' => (c =? d) && jsstring_eqb a' b'
  | _, _ => false
  end.

(** [obj[k] = v] *)
Fixpoint obj_set (k : jsstring) (v : value) (fields : list (jsstring * value))
  : list (jsstring * value) :=
  match fields with
  | [] => [(k, v)]
  | (k', v') :: r =>
      if jsstring_eqb k k' then (k, v) :: r else (k', v') :: obj_set k v r
  end.

(** [obj[k]] *)
Fixpoint obj_get (k : jsstring) (fields : list (jsstring * value))
  : option value :=
  match fields with
  | [] => None
  | (k', v') :: r => if jsstring_eqb k k' then Some v' else obj_get k r
  end.

Definition is_ws (c : N) : bool :=
  (c =? 9) || (c =? 10) || (c =? 13) || (c =? 32).

Fixpoint skip_ws (s : list N) : list N :=
  match s with
  | c :: r => if is_ws c then skip_ws r else s
  | [] => []
  end.

Fixpoint strip_prefix (p s : list N) : option (list N) :=
  match p with
  | [] => Some s
  | c :: p' =>
      match s with
      | d :: s' => if c =? d then strip_prefix p' s' else None
      | [] => None
      end
  end.

Definition digit (c : N) : option Z :=
  if (48 <=? c) && (c <=? 57) then Some (Z.of_N (c - 48)) else None.

Definition hex (c : N) : option N :=
  if (48 <=? c) && (c <=? 57) then Some (c - 48)
  else if (97 <=? c) && (c <=? 102) then Some (c - 87)
  else if (65 <=? c) && (c <=? 70) then Some (c - 55)
  else None.

(** A maximal run of decimal digits: its value on top of [acc], how many
    there were, and the rest. *)
Fixpoint digits (acc : Z) (n : nat) (s : list N) : Z * nat * list N :=
  match s with
  | c :: r =>
      match digit c with
      | Some d => digits (10 * acc + d)%Z (S n) r
      | None => (acc, n, s)
      end
  | [] => (acc, n, s)
  end.

Definition parse_fraction (int : Z) (s : list N) : option (Z * nat * list N) :=
  match s with
  | c :: r =>
      if c =? 46 then
        let '(m, n, s') := digits int 0 r in
        if (n =? 0)%nat then None else Some (m, n, s')
      else Some (int, 0%nat, s)
  | [] => Some (int, 0%nat, s)
  end.

Definition parse_exponent (s : list N) : option (Z * list N) :=
  match s with
  | c :: r =>
      if (c =? 101) || (c =? 69) then
        let '(negative, r') :=
          match r with
          | d :: r'' =>
              if d =? 45 then (true, r'')
              else if d =? 43 then (false, r'')
              else (false, r)
          | [] => (false, r)
          end in
        let '(e, n, s') := digits 0 0 r' in
        if (n =? 0)%nat then None
        else Some (if negative then (- e)%Z else e, s')
      else Some (0%Z, s)
  | [] => Some (0%Z, s)
  end.

Definition parse_number (s : list N) : option (value * list N) :=
  let '(negative, s1) :=
    match s with
    | c :: r => if c =? 45 then (true, r) else (false, s)
    | [] => (false, s)
    end in
  match s1 with
  | c :: r =>
      match digit c with
      | None => None
      | Some _ =>
          let '(int, _, s2) :=
            if c =? 48 then (0%Z, 1%nat, r) else digits 0 0 s1 in
          match parse_fraction int s2 with
          | None => None
          | Some (m, n, s3) =>
              match parse_exponent s3 with
              | None => None
              | Some (e, s4) =>
                  Some (Number (if negative then (- m)%Z else m)
                          (e - Z.of_nat n)%Z, s4)
              end
          end
      end
  | [] => None
  end.

Definition escape (c : N) : option N :=
  if c =? 34 then Some 34
  else if c =? 92 then Some 92
  else if c =? 47 then Some 47
  else if c =? 98 then Some 8
  else if c =? 102 then Some 12
  else if c =? 110 then Some 10
  else if c =? 114 then Some 13
  else if c =? 116 then Some 9
  else None.

(** The characters of a string after its opening quote. *)
Fixpoint parse_chars (s : list N) (acc : list N) : option (jsstring * list N) :=
  match s with
  | [] => None
  | c :: r =>
      if c =? 34 then Some (rev acc, r)
      else if c =? 92 then
        match r with
        | e :: r' =>
            if e =? 117 then
              match r' with
              | h1 :: h2 :: h3 :: h4 :: r'' =>
                  match hex h1, hex h2, hex h3, hex h4 with
                  | Some a, Some b, Some c', Some d =>
                      parse_chars r'' ((((a * 16 + b) * 16 + c') * 16 + d) :: acc)
                  | _, _, _, _ => None
                  end
              | _ => None
              end
            else
              match escape e with
              | Some x => parse_chars r' (x :: acc)
              | None => None
              end
        | [] => None
        end
      else if c <? 32 then None
      else parse_chars r (c :: acc)
  end.

Definition parse_literal (lit : string) (v : value) (s : list N)
  : option (value * list N) :=
  match strip_prefix (js lit) s with
  | Some r => Some (v, r)
  | None => None
  end.

Fixpoint parse_value (fuel : nat) (s : list N) : option (value * list N) :=
  match fuel with
  | O => None
  | S fuel' =>
      match skip_ws s with
      | [] => None
      | c :: r =>
          if c =? 123 then
            match skip_ws r with
            | c' :: r' =>
                if c' =? 125 then Some (Object [], r')
                else parse_members fuel' (c' :: r') []
            | [] => None
            end
          else if c =? 91 then
            match skip_ws r with
            | c' :: r' =>
                if c' =? 93 then Some (Array [], r')
                else parse_elements fuel' (c' :: r') []
            | [] => None
            end
          else if c =? 34 then
            match parse_chars r [] with
            | Some (str, r') => Some (String str, r')
            | None => None
            end
          else if c =? 116 then parse_literal "true" (Bool true) (c :: r)
          else if c =? 102 then parse_literal "false" (Bool false) (c :: r)
          else if c =? 110 then parse_literal "null" Null (c :: r)
          else parse_number (c :: r)
      end
  end
with parse_members (fuel : nat) (s : list N) (acc : list (jsstring * value))
  : option (value * list N) :=
  match fuel with
  | O => None
  | S fuel' =>
      match skip_ws s with
      | c :: r =>
          if c =? 34 then
            match parse_chars r [] with
            | Some (k, r1) =>
                match skip_ws r1 with
                | c1 :: r2 =>
                    if c1 =? 58 then
                      match parse_value fuel' r2 with
                      | Some (v, r3) =>
                          match skip_ws r3 with
                          | c3 :: r4 =>
                              if c3 =? 44 then
                                parse_members fuel' r4 (obj_set k v acc)
                              else if c3 =? 125 then
                                Some (Object (obj_set k v acc), r4)
                              else None
                          | [] => None
                          end
                      | None => None
                      end
                    else None
                | [] => None
                end
            | None => None
            end
          else None
      | [] => None
      end
  end
with parse_elements (fuel : nat) (s : list N) (acc : list value)
  : option (value * list N) :=
  match fuel with
  | O => None
  | S fuel' =>
      match parse_value fuel' s with
      | Some (v, r) =>
          match skip_ws r with
          | c :: r' =>
              if c =? 44 then parse_elements fuel' r' (acc ++ [v])
              else if c =? 93 then Some (Array (acc ++ [v]), r')
              else None
          | [] => None
          end
      | None => None
      end
  end.

Definition parse (text : jsstring) : result value :=
  match parse_value (S (length text)) text with
  | Some (v, r) =>
      match skip_ws r with
      | [] => Ok v
      | _ :: _ => Throw SyntaxError
      end
  | None => Throw SyntaxError
  end.

End JSON.

(** ** services/geminiService.ts: the analysis of a CV *)

Inductive CVInput : Type :=
| TextInput (text : jsstring)
| BinaryInput (mime data : jsstring).

(** The [contents] of the request; the model identifier and the response
    schema sent with it are constants. *)
Inductive requestContents : Type :=
| PromptContents (prompt : jsstring)
| PartsContents (mime data : jsstring) (text : jsstring).

Definition text_prompt (cv : jsstring) : jsstring :=
  js "
      Analyze the following CV/Resume text. 
      Extract the candidate's name (if not found, use "
  ++ [34%N] ++ js "Candidate" ++ [34%N] ++
  js "), a brief professional summary, 
      a list of key technical skills, and 3-5 key topics that would be good to interview them about.
      
      CV Text:
      "
  ++ cv ++
  js "
      ".

Definition document_prompt : jsstring :=
  js "Analyze the attached CV document. 
            Extract the candidate's name (if not found, use "
  ++ [34%N] ++ js "Candidate" ++ [34%N] ++
  js "), a brief professional summary, 
            a list of key technical skills, and 3-5 key topics that would be good to interview them about.".

Definition request_contents (input : CVInput) : requestContents :=
  match input with
  | TextInput text => PromptContents (text_prompt (firstn (N.to_nat 20000) text))
  | BinaryInput mime data => PartsContents mime data document_prompt
  end.

(** What the hosted model answers: [response.text] may be undefined. *)
Record GenerateContentResponse : Type := mkResponse {
  response_text : option jsstring
}.

(** [response.text || '{}'] *)
Definition text_or_empty_object (response : GenerateContentResponse) : jsstring :=
  match response_text response with
  | Some ((_ :: _) as text) => text
  | _ => js "{}"
  end.

(** [analyzeCV]; [generateContent] is the hosted model, which resolves
    with a response or rejects.  Every exception of the body is replaced
    by the one [Error] of the [catch]. *)
Definition analyzeCV
    (generateContent : requestContents -> result GenerateContentResponse)
    (input : CVInput) : result JSON.value :=
  match (let! response := generateContent (request_contents input) in
         JSON.parse (text_or_empty_object response)) with
  | Ok result => Ok result
  | Throw _ => Throw (Error "Failed to analyze CV content.")
  end.

(** The shape of [CVAnalysis]: two strings and two arrays of strings. *)
Definition is_string (v : option JSON.value) : bool :=
  match v with
  | Some (JSON.String _) => true
  | _ => false
  end.

Definition is_string_array (v : option JSON.value) : bool :=
  match v with
  | Some (JSON.Array items) => forallb (fun x => is_string (Some x)) items
  | _ => false
  end.

Definition field (k : string) (v : JSON.value) : option JSON.value :=
  match v with
  | JSON.Object fields => JSON.obj_get (js k) fields
  | _ => None
  end.

Definition is_CVAnalysis (v : JSON.value) : bool :=
  is_string (field "candidateName" v) && is_string (field "summary" v)
  && is_string_array (field "topics" v)
  && is_string_array (field "technicalSkills" v).

(** ** Definitions used by the statements and the proofs *)

(** The 6-bit values [btoa] writes, and its padding. *)
Fixpoint enc_sextets (l : list N) : list N :=
  match l with
  | a :: b :: c :: r =>
      (a / 4 :: (a mod 4) * 16 + b / 16 :: (b mod 16) * 4 + c / 64
         :: c mod 64 :: enc_sextets r)%N
  | [a; b] => [a / 4; (a mod 4) * 16 + b / 16; (b mod 16) * 4]%N
  | [a] => [a / 4; (a mod 4) * 16]%N
  | [] => []
  end.

Fixpoint enc_padding (l : list N) : list N :=
  match l with
  | _ :: _ :: _ :: r => enc_padding r
  | [_; _] => [Base64.pad]
  | [_] => [Base64.pad; Base64.pad]
  | [] => []
  end.

(** Clamping to [-1, 1] in the words of the specification; the
    infinities clamp to the bounds and NaN stays. *)
Definition spec_clamp (x : float) : float :=
  match x with
  | Fin q =>
      if Qle_bool q (-1) then Fin (-1)
      else if Qle_bool 1 q then Fin 1
      else Fin q
  | PosInf => Fin 1
  | NegInf => Fin (-1)
  | NaN => NaN
  end.

(** The encoding of one sample in the words of the specification: the
    sample is clamped to [-1, 1], scaled by 32768 when negative and by
    32767 otherwise, and truncated.  A sample that is not a number
    encodes as 0. *)
Definition spec_quantize (x : float) : Z :=
  match spec_clamp x with
  | Fin s => if Qltb s 0 then trunc (s * 32768) else trunc (s * 32767)
  | _ => 0
  end.

(** The decoding of sample [k] in the words of the specification: bytes
    [2k] and [2k+1] read as a signed 16-bit little-endian integer, divided
    by 32768. *)
Definition spec_sample (data : list byte) (k : nat) : float :=
  Fin (inject_Z (int16_of_bytes (nth (2 * k) data x00) (nth (2 * k + 1) data x00))
       / 32768).

(** A frame through [createPcmBlob], [decodeBase64] and a one-channel
    [decodeAudioData]. *)
Definition decode_of_encode (frame : list float) (rate : Z) : result AudioBuffer :=
  let! blob := createPcmBlob frame in
  let! bytes := decodeBase64 (blob_data blob) in
  decodeAudioData bytes rate 1.

(** The segments an effect trace schedules, in order: the start time and
    the duration of each. *)
Fixpoint scheduled (evs : list event) : list (Q * Q) :=
  match evs with
  | SourceStart _ when buffer :: r => (when, duration buffer) :: scheduled r
  | _ :: r => scheduled r
  | [] => []
  end.

(** Every segment starts where the one before it ends. *)
Fixpoint back_to_back (l : list (Q * Q)) : Prop :=
  match l with
  | (t1, d1) :: r =>
      match r with
      | (t2, _) :: _ => t2 = (t1 + d1)%Q
      | [] => True
      end /\ back_to_back r
  | [] => True
  end.

(** The messages of a sequence as inputs of the session. *)
Definition deliver (msgs : list (Q * LiveServerMessage)) : list input :=
  List.map (fun nm => OnMessage (fst nm) (snd nm)) msgs.

(** Each message is handled while scheduled audio is still pending: the
    clock reading does not exceed [nextStartTime]. *)
Fixpoint timely (s : InterviewSession) (msgs : list (Q * LiveServerMessage))
  : Prop :=
  match msgs with
  | [] => True
  | nm :: r =>
      (fst nm <= nextStartTime s)%Q
      /\ timely (fst (handleServerMessage (fst nm) (snd nm) s)) r
  end.

(** The decoding of the audio of a message, as the handler does it. *)
Definition decode_segment (data : jsstring) : result AudioBuffer :=
  let! bytes := decodeBase64 data in
  decodeAudioData bytes 24000 1.

(** The playback segment a message carries: the decoding of its audio,
    when the audio is present, not empty and decodes. *)
Definition message_segment (m : LiveServerMessage) : option AudioBuffer :=
  match message_audio m with
  | Some ((_ :: _) as data) =>
      match decode_segment data with
      | Ok b => Some b
      | Throw _ => None
      end
  | _ => None
  end.

(** The playback segments of a sequence of messages, in arrival order. *)
Fixpoint segments (msgs : list (Q * LiveServerMessage)) : list AudioBuffer :=
  match msgs with
  | [] => []
  | nm :: r =>
      match message_segment (snd nm) with
      | Some b => b :: segments r
      | None => segments r
      end
  end.

(** The buffers an effect trace starts, in order, each with its start
    time. *)
Fixpoint started (evs : list event) : list (Q * AudioBuffer) :=
  match evs with
  | SourceStart _ when buffer :: r => (when, buffer) :: started r
  | _ :: r => started r
  | [] => []
  end.

(** The buffers [bs] played one after another from [t]: each starts at
    the start of the one before it plus its duration. *)
Fixpoint gapless (t : Q) (bs : list AudioBuffer) : list (Q * AudioBuffer) :=
  match bs with
  | [] => []
  | b :: r => (t, b) :: gapless (t + duration b) r
  end.

(** A session as the application sets it up, started with the microphone
    granted and the connection open. *)
Definition playing_session : InterviewSession :=
  fst (run app_session [CallStart; MicrophoneResult true; OnOpen]).

(** How many times the disconnect callback has been called. *)
Definition count_disconnects (evs : list event) : nat :=
  length (List.filter (fun e => match e with Disconnect => true | _ => false end) evs).

(** A JSON text written with ['] for the double quote. *)
Definition quoted (s : string) : jsstring :=
  List.map (fun c => if (c =? 39)%N then 34%N else c) (js s).

(** ** Further definitions used by the statements *)

(** An input that is not an interruption. *)
Definition not_interrupting (i : input) : Prop :=
  match i with
  | OnMessage _ message => message_interrupted message = false
  | _ => True
  end.

(** No segment starts before the one scheduled ahead of it has ended. *)
Fixpoint no_overlap (l : list (Q * Q)) : Prop :=
  match l with
  | (t1, d1) :: r =>
      match r with
      | (t2, _) :: _ => (t1 + d1 <= t2)%Q
      | [] => True
      end /\ no_overlap r
  | [] => True
  end.

(** The sources an effect trace stops, in order. *)
Fixpoint stopped (evs : list event) : list nat :=
  match evs with
  | SourceStop source :: r => source :: stopped r
  | _ :: r => stopped r
  | [] => []
  end.

(** The source nodes of the active set are distinct and were all made by
    [createBufferSource] already. *)
Definition sources_fresh (s : InterviewSession) : Prop :=
  List.NoDup (sources s)
  /\ Forall (fun x => (x < next_source s)%nat) (sources s).

Definition count_connects (evs : list event) : nat :=
  length (List.filter (fun e => match e with Connect => true | _ => false end) evs).


(** A platform event of the connection or of the capture graph. *)
Definition platform_event (i : input) : Prop :=
  match i with
  | OnOpen | OnMessage _ _ | AudioProcess _ => True
  | _ => False
  end.

(** An input that does not stop the session. *)
Definition keeps_running (i : input) : Prop :=
  match i with
  | CallStop | OnClose | OnError => False
  | _ => True
  end.

(** The sum of squares the capture callback accumulates. *)
Definition sum_of_squares (inputData : list float) (acc : float) : float :=
  fold_left (fun acc x => fadd acc (fmul x x)) inputData acc.

(** *** The instructions sent with the connection request

    The template literal of [start], cut at its three substitutions. *)

Record CVAnalysis : Type := mkCVAnalysis {
  candidateName : jsstring;
  summary : jsstring;
  topics : list jsstring;
  technicalSkills : list jsstring
}.

(** [Array.prototype.join] *)
Fixpoint join (separator : jsstring) (l : list jsstring) : jsstring :=
  match l with
  | [] => []
  | [x] => x
  | x :: r => x ++ separator ++ join separator r
  end.

Definition instruction_head : jsstring :=
  js "
            You are an expert technical interviewer named " ++ [34%N] ++ js "Alex" ++ [34%N] ++ js ". 
            You are interviewing ".

Definition instruction_summary : jsstring :=
  js ".
            
            Here is the summary of their profile:
            ".

Definition instruction_topics : jsstring :=
  js "
            
            Focus your questions on these topics based on their CV:
            ".

Definition instruction_rules : jsstring :=
  js "
            
            Rules:
            1. Start by introducing yourself briefly as Alex.
            2. Your FIRST question must be exactly: " ++ [34%N] ++ js "Could you please tell me something about yourself, your education, and your work experience?" ++ [34%N] ++ js "
            3. After the candidate answers the introduction, move on to technical questions based on the topics provided.
            4. Ask one question at a time.
            5. Keep your responses concise and conversational (under 20 seconds usually).
            6. If the candidate gives a vague answer, ask for clarification.
            7. Be professional but encouraging.
          ".

Definition systemInstruction (context : CVAnalysis) : jsstring :=
  instruction_head ++ candidateName context
    ++ instruction_summary ++ summary context
    ++ instruction_topics ++ join (js ", ") (topics context)
    ++ instruction_rules.

(** [a] occurs in [b]. *)
Definition infix_of (a b : jsstring) : Prop :=
  exists pre post, b = pre ++ a ++ post.

(** ** App.tsx: the application component *)

Inductive AppState : Type :=
| IDLE
| ANALYZING
| READY
| INTERVIEWING
| COMPLETED
| ERROR.

(** The [volume] state: 0 at first and after a reset, and otherwise the
    square root of the radicand the capture callback reported. *)
Inductive Volume : Type :=
| Silent
| Rms (radicand : float).

(** The state of the component.  [analysis] holds what [analyzeCV]
    resolved with, as it is; [sessionRef] is the position in the world's
    list of session objects. *)
Record App : Type := mkApp {
  appState : AppState;
  cvText : jsstring;
  analysis : option JSON.value;
  errorMsg : option string;
  volume : Volume;
  sessionRef : option nat
}.

Definition initial_app : App := mkApp IDLE [] None None Silent None.

Definition set_appState (st : AppState) (a : App) : App :=
  mkApp st (cvText a) (analysis a) (errorMsg a) (volume a) (sessionRef a).

Definition set_cvText (t : jsstring) (a : App) : App :=
  mkApp (appState a) t (analysis a) (errorMsg a) (volume a) (sessionRef a).

Definition set_analysis (v : option JSON.value) (a : App) : App :=
  mkApp (appState a) (cvText a) v (errorMsg a) (volume a) (sessionRef a).

Definition set_errorMsg (m : option string) (a : App) : App :=
  mkApp (appState a) (cvText a) (analysis a) m (volume a) (sessionRef a).

Definition set_volume (v : Volume) (a : App) : App :=
  mkApp (appState a) (cvText a) (analysis a) (errorMsg a) v (sessionRef a).

Definition set_sessionRef (r : option nat) (a : App) : App :=
  mkApp (appState a) (cvText a) (analysis a) (errorMsg a) (volume a) r.

(** The code units [String.prototype.trim] removes: white space and line
    terminators. *)
Definition is_trim_whitespace (c : N) : bool :=
  ((c =? 9) || (c =? 10) || (c =? 11) || (c =? 12) || (c =? 13) || (c =? 32)
   || (c =? 160) || (c =? 5760) || ((8192 <=? c) && (c <=? 8202))
   || (c =? 8232) || (c =? 8233) || (c =? 8239) || (c =? 8287)
   || (c =? 12288) || (c =? 65279))%N.

(** [!text.trim()] *)
Definition blank (text : jsstring) : bool := forallb is_trim_whitespace text.

(** A number literal whose value rounds to zero as a binary64 number. *)
Definition rounds_to_zero (mantissa exponent : Z) : bool :=
  Qle_bool (Qabs (inject_Z mantissa * Qpower 10 exponent))
           (Qpower 2 (-1075)).

(** A parsed value as a condition. *)
Definition js_truthy (v : JSON.value) : bool :=
  match v with
  | JSON.Null => false
  | JSON.Bool b => b
  | JSON.Number m e => negb (rounds_to_zero m e)
  | JSON.String s => match s with [] => false | _ :: _ => true end
  | JSON.Array _ | JSON.Object _ => true
  end.

(** The three callbacks [handleStartInterview] assigns to a session, by
    the effect that calls them. *)
Definition notify (a : App) (e : event) : App :=
  match e with
  | VolumeChange radicand => set_volume (Rms radicand) a
  | ErrorCallback msg => set_appState ERROR (set_errorMsg (Some msg) a)
  | Disconnect => set_appState COMPLETED a
  | _ => a
  end.

(** The component and every session object it has made. *)
Record World : Type := mkWorld {
  component : App;
  heap : list InterviewSession
}.

Definition initial_world : World := mkWorld initial_app [].

(** A call or a platform event reaching session [k]: the session takes
    its step and its callbacks update the component. *)
Definition session_input (k : nat) (i : input) (w : World)
  : World * list event :=
  match heap w !! k with
  | Some s =>
      let (s', evs) := step s i in
      (mkWorld (fold_left notify evs (component w)) (<[k := s']> (heap w)), evs)
  | None => (w, [])
  end.

(** [handleCVSubmit] up to its [await]: the request it issues, if any. *)
Definition handleCVSubmit (cv : CVInput) (a : App) : App * option CVInput :=
  match cv with
  | TextInput text =>
      if blank text then (a, None)
      else (set_errorMsg None (set_appState ANALYZING a), Some cv)
  | BinaryInput _ _ =>
      (set_errorMsg None (set_appState ANALYZING a), Some cv)
  end.

(** [handleCVSubmit] after its [await], with what [analyzeCV] settled
    to. *)
Definition handleCVSubmit_settled (r : result JSON.value) (a : App) : App :=
  match r with
  | Ok result => set_appState READY (set_analysis (Some result) a)
  | Throw _ =>
      set_appState IDLE
        (set_errorMsg
           (Some "Failed to analyze CV. Please ensure the file is a valid PDF or Text."%string)
           a)
  end.

(** [!analysis] *)
Definition no_analysis (a : App) : bool :=
  match analysis a with
  | Some v => negb (js_truthy v)
  | None => true
  end.

(** [handleStartInterview]: a new session with the three callbacks, then
    [session.start()] up to its [await]. *)
Definition handleStartInterview (w : World) : World * list event :=
  if no_analysis (component w) then (w, [])
  else
    let k := length (heap w) in
    session_input k CallStart
      (mkWorld (set_sessionRef (Some k) (set_appState INTERVIEWING (component w)))
         (heap w ++ [app_session])).

(** [handleEndInterview] *)
Definition handleEndInterview (w : World) : World * list event :=
  match sessionRef (component w) with
  | Some k =>
      let (w', evs) := session_input k CallStop w in
      (mkWorld (set_appState COMPLETED (set_sessionRef None (component w')))
         (heap w'), evs)
  | None => (mkWorld (set_appState COMPLETED (component w)) (heap w), [])
  end.

(** [resetApp] *)
Definition resetApp (a : App) : App :=
  set_volume Silent
    (set_errorMsg None (set_analysis None (set_cvText [] (set_appState IDLE a)))).

(** What the user does, and the settling of an analysis. *)
Inductive ui : Type :=
| TypeText (text : jsstring)
| SelectFile (cv : CVInput)
| ClickAnalyze
| AnalysisSettled (r : result JSON.value)
| ClickStart
| ClickEnd
| ClickReset.

Definition ui_step (w : World) (u : ui) : World * list event :=
  match u with
  | TypeText text => (mkWorld (set_cvText text (component w)) (heap w), [])
  | SelectFile cv =>
      (mkWorld (fst (handleCVSubmit cv (component w))) (heap w), [])
  | ClickAnalyze =>
      (mkWorld (fst (handleCVSubmit (TextInput (cvText (component w))) (component w)))
         (heap w), [])
  | AnalysisSettled r =>
      (mkWorld (handleCVSubmit_settled r (component w)) (heap w), [])
  | ClickStart => handleStartInterview w
  | ClickEnd => handleEndInterview w
  | ClickReset => (mkWorld (resetApp (component w)) (heap w), [])
  end.

Inductive world_input : Type :=
| User (u : ui)
| Session (k : nat) (i : input).

Definition world_step (w : World) (x : world_input) : World * list event :=
  match x with
  | User u => ui_step w u
  | Session k i => session_input k i w
  end.

Fixpoint world_run (w : World) (xs : list world_input) : World :=
  match xs with
  | [] => w
  | x :: rest => world_run (fst (world_step w x)) rest
  end.

Fixpoint ui_run (w : World) (us : list ui) : World :=
  match us with
  | [] => w
  | u :: rest => ui_run (fst (ui_step w u)) rest
  end.

(** Every session object has the disconnect callback the component
    assigns. *)
Definition wired (w : World) : Prop :=
  Forall (fun s => onDisconnect s = true) (heap w).

(** On the live screen the current session is an active one. *)
Definition live_session_active (w : World) : Prop :=
  appState (component w) = INTERVIEWING ->
  exists k s, sessionRef (component w) = Some k /\ heap w !! k = Some s
              /\ active s = true.

(** ** components/FileUpload.tsx: the choice of a file *)

(** A file as the component sees it: its reported type, its name, its
    bytes, and the text [readAsText] makes of them. *)
Record File : Type := mkFile {
  file_type : jsstring;
  file_name : jsstring;
  file_bytes : list byte;
  file_text : jsstring
}.

(** What [processFile] ends in once the reader has loaded: a call of
    [onFileSelect], an alert, or nothing. *)
Inductive upload : Type :=
| Selected (cv : CVInput)
| Alert (msg : string)
| Nothing.

Fixpoint startsWith (s prefix : jsstring) : bool :=
  match prefix, s with
  | [], _ => true
  | c :: prefix', d :: s' => (c =? d)%N && startsWith s' prefix'
  | _ :: _, [] => false
  end.

Definition endsWith (s suffix : jsstring) : bool :=
  startsWith (rev s) (rev suffix).

(** [s.split(separator)] for a separator of one code unit. *)
Fixpoint split (separator : N) (s : jsstring) : list jsstring :=
  match s with
  | [] => [[]]
  | c :: r =>
      if (c =? separator)%N then [] :: split separator r
      else
        match split separator r with
        | h :: t => (c :: h) :: t
        | [] => [[c]]
        end
  end.

(** The result of [readAsDataURL]. *)
Definition data_url (file : File) : jsstring :=
  js "data:" ++ file_type file ++ js ";base64,"
    ++ Base64.encode_groups (List.map Byte.to_N (file_bytes file)).

(** [processFile], with the reader's [onload] run.  A data URL always has
    a comma, so the second piece of the split is there. *)
Definition processFile (file : File) : upload :=
  if JSON.jsstring_eqb (file_type file) (js "application/pdf") then
    match split 44 (data_url file) !! 1%nat with
    | Some base64Data => Selected (BinaryInput (js "application/pdf") base64Data)
    | None => Nothing
    end
  else if endsWith (file_name file) (js ".doc")
          || endsWith (file_name file) (js ".docx") then
    Alert "For best results, please convert your Word document to PDF before uploading."
  else if startsWith (file_type file) (js "text/")
          || endsWith (file_name file) (js ".md")
          || endsWith (file_name file) (js ".txt") then
    Selected (TextInput (file_text file))
  else Alert "Please upload a PDF or Text file.".

(** * Theorems *)

(** ** Base64 *)

Section Base64Facts.

Import Base64.
Local Open Scope N_scope.

Lemma list_ind3 (P : list N -> Prop) :
  P [] -> (forall a, P [a]) -> (forall a b, P [a; b]) ->
  (forall a b c r, P r -> P (a :: b :: c :: r)) ->
  forall l, P l.
Proof.
  intros H0 H1 H2 H3.
  assert (H : forall l, P l /\ (forall a, P (a :: l)) /\ (forall a b, P (a :: b :: l))).
  { induction l as [|x l (IH0 & IH1 & IH2)].
    - auto.
    - repeat split; auto. }
  intro l. apply H.
Qed.

Lemma b64val_b64char i : i < 64 -> b64val (b64char i) = Some i.
Proof.
  intro Hi. unfold b64char.
  destruct (N.ltb_spec i 26); [|destruct (N.ltb_spec i 52);
    [|destruct (N.ltb_spec i 62); [|destruct (N.eqb_spec i 62)]]];
  unfold b64val;
  repeat match goal with
  | |- context [N.leb ?a ?b] => destruct (N.leb_spec a b); simpl
  | |- context [N.eqb ?a ?b] => destruct (N.eqb_spec a b); simpl
  end; try (f_equal; lia); try lia.
Qed.

Lemma b64char_not_pad i : b64char i <> pad.
Proof.
  unfold b64char, pad.
  destruct (N.ltb_spec i 26), (N.ltb_spec i 52), (N.ltb_spec i 62),
    (N.eqb_spec i 62); lia.
Qed.

Lemma b64char_not_whitespace i : is_ascii_whitespace (b64char i) = false.
Proof.
  unfold b64char.
  destruct (N.ltb_spec i 26), (N.ltb_spec i 52), (N.ltb_spec i 62),
    (N.eqb_spec i 62);
  unfold is_ascii_whitespace;
  repeat match goal with
  | |- context [N.eqb ?a ?b] => destruct (N.eqb_spec a b)
  end; simpl; try reflexivity; lia.
Qed.

Lemma encode_groups_split l :
  encode_groups l = List.map b64char (enc_sextets l) ++ enc_padding l.
Proof.
  induction l as [| a | a b | a b c r IH] using list_ind3; try reflexivity.
  cbn [encode_groups enc_sextets enc_padding List.map app]. now rewrite IH.
Qed.

Lemma enc_sextets_bounded l :
  Forall (fun a => a < 256) l -> Forall (fun v => v < 64) (enc_sextets l).
Proof.
  induction l as [| a | a b | a b c r IH] using list_ind3; intro H;
    cbn [enc_sextets].
  - constructor.
  - inversion_clear H. repeat constructor; zify; divlia.
  - inversion_clear H as [|? ? Ha H']. inversion_clear H' as [|? ? Hb _].
    repeat constructor; zify; divlia.
  - inversion_clear H as [|? ? Ha H']. inversion_clear H' as [|? ? Hb H''].
    inversion_clear H'' as [|? ? Hc Hr].
    repeat (constructor; [zify; divlia|]). auto.
Qed.

Lemma decode_enc_sextets l :
  Forall (fun a => a < 256) l -> decode_groups (enc_sextets l) = l.
Proof.
  induction l as [| a | a b | a b c r IH] using list_ind3; intro H;
    cbn [enc_sextets decode_groups].
  - reflexivity.
  - inversion_clear H. f_equal. zify; divlia.
  - inversion_clear H as [|? ? Ha H']. inversion_clear H' as [|? ? Hb _].
    f_equal; [|f_equal]; zify; divlia.
  - inversion_clear H as [|? ? Ha H']. inversion_clear H' as [|? ? Hb H''].
    inversion_clear H'' as [|? ? Hc Hr].
    rewrite IH by assumption.
    f_equal; [|f_equal; [|f_equal]]; zify; divlia.
Qed.

Lemma sextets_b64char vs :
  Forall (fun v => v < 64) vs -> sextets (List.map b64char vs) = Some vs.
Proof.
  induction 1 as [|v vs Hv _ IH]; cbn [List.map sextets].
  - reflexivity.
  - now rewrite b64val_b64char, IH.
Qed.

(** The length of the text is a multiple of four; without the padding it
    is never one more than such a multiple. *)
Lemma enc_lengths l :
  exists k : nat,
    length (List.map b64char (enc_sextets l) ++ enc_padding l) = (4 * k)%nat
    /\ (length (enc_sextets l) = (4 * k)%nat
        \/ length (enc_sextets l) + 2 = (4 * k)%nat
        \/ length (enc_sextets l) + 1 = (4 * k)%nat)%nat.
Proof.
  induction l as [| a | a b | a b c r IH] using list_ind3.
  - exists 0%nat. auto.
  - exists 1%nat. cbn. auto.
  - exists 1%nat. cbn. auto.
  - destruct IH as (k & H1 & H2). exists (S k).
    cbn [enc_sextets enc_padding List.map app length] in *. lia.
Qed.

Lemma filter_whitespace_id d :
  Forall (fun c => is_ascii_whitespace c = false) d ->
  List.filter (fun c => negb (is_ascii_whitespace c)) d = d.
Proof.
  induction 1 as [|c d Hc _ IH]; cbn [List.filter].
  - reflexivity.
  - now rewrite Hc, IH.
Qed.

Lemma strip_padding_encoded l :
  strip_padding (List.map b64char (enc_sextets l) ++ enc_padding l)
  = List.map b64char (enc_sextets l).
Proof.
  unfold strip_padding.
  destruct (enc_lengths l) as (k & Hlen & _). rewrite Hlen.
  replace (N.of_nat (4 * k) mod 4 =? 0) with true
    by (symmetry; apply N.eqb_eq; zify; divlia).
  set (body := List.map b64char (enc_sextets l)).
  assert (Hbody : forall c, In c (rev body) -> (c =? pad) = false).
  { intros c Hc. apply in_rev in Hc. apply in_map_iff in Hc.
    destruct Hc as (v & <- & _). apply N.eqb_neq, b64char_not_pad. }
  assert (Hpad : enc_padding l = [] \/ enc_padding l = [pad]
                 \/ enc_padding l = [pad; pad]).
  { clear. induction l as [| a | a b | a b c r IH] using list_ind3; cbn; auto. }
  destruct Hpad as [-> | [-> | ->]]; rewrite rev_app_distr; cbn [rev app].
  - rewrite app_nil_r.
    destruct (rev body) as [|c1 [|c2 r]] eqn:E; try reflexivity;
      rewrite (Hbody c1) by (left; reflexivity); reflexivity.
  - destruct (rev body) as [|c2 r] eqn:E.
    + apply (f_equal (@rev N)) in E. rewrite rev_involutive in E.
      now rewrite E.
    + rewrite N.eqb_refl, (Hbody c2) by (left; reflexivity).
      rewrite <- (rev_involutive body), E. reflexivity.
  - rewrite !N.eqb_refl. apply rev_involutive.
Qed.

Lemma atob_encode_groups l :
  Forall (fun a => a < 256) l -> atob (encode_groups l) = Ok l.
Proof.
  intro H. unfold atob. rewrite encode_groups_split.
  pose proof (enc_sextets_bounded l H) as Hb.
  rewrite filter_whitespace_id.
  2:{ apply List.Forall_app. split.
      - apply List.Forall_forall. intros c Hc. apply in_map_iff in Hc.
        destruct Hc as (v & <- & _). apply b64char_not_whitespace.
      - clear. induction l as [| a | a b | a b c r IH] using list_ind3;
          cbn; repeat constructor; auto. }
  rewrite strip_padding_encoded, length_map.
  destruct (enc_lengths l) as (k & _ & Hk).
  replace (N.of_nat (length (enc_sextets l)) mod 4 =? 1) with false
    by (symmetry; apply N.eqb_neq; zify; divlia).
  rewrite sextets_b64char by assumption.
  now rewrite decode_enc_sextets.
Qed.

End Base64Facts.

Lemma ToUint8_to_N (b : byte) : ToUint8 (Byte.to_N b) = b.
Proof.
  unfold ToUint8. pose proof (Byte.to_N_bounded b).
  rewrite N.mod_small by lia. now rewrite Byte.of_to_N.
Qed.

Lemma encodeBase64_ok (bytes : list byte) :
  encodeBase64 bytes = Ok (Base64.encode_groups (List.map Byte.to_N bytes)).
Proof.
  unfold encodeBase64, Base64.btoa.
  replace (forallb _ _) with true; [reflexivity|].
  symmetry. apply forallb_forall. intros c Hc. apply in_map_iff in Hc.
  destruct Hc as (b & <- & _). apply N.leb_le, Byte.to_N_bounded.
Qed.

Lemma decodeBase64_encode_groups (bytes : list byte) :
  decodeBase64 (Base64.encode_groups (List.map Byte.to_N bytes)) = Ok bytes.
Proof.
  unfold decodeBase64. rewrite atob_encode_groups.
  - cbn [bind]. f_equal. rewrite List.map_map.
    rewrite <- (List.map_id bytes) at 2. apply List.map_ext, ToUint8_to_N.
  - apply List.Forall_forall. intros c Hc. apply in_map_iff in Hc.
    destruct Hc as (b & <- & _). pose proof (Byte.to_N_bounded b). lia.
Qed.

(** C6: for every byte sequence [b], [encodeBase64] returns a text and
    [decodeBase64] of that text returns [b]: the round trip through the
    transport encoding is exact. *)
Theorem decodeBase64_encodeBase64 (b : list byte) :
  bind (encodeBase64 b) decodeBase64 = Ok b.
Proof.
  rewrite encodeBase64_ok. cbn [bind]. apply decodeBase64_encode_groups.
Qed.

(** ** The PCM codec *)

Lemma Qltb_lt p q : Qltb p q = true <-> (p < q)%Q.
Proof.
  unfold Qltb. rewrite negb_true_iff, <- not_true_iff_false, Qle_bool_iff.
  split; [apply Qnot_le_lt | apply Qlt_not_le].
Qed.

Lemma Qltb_ge p q : Qltb p q = false <-> (q <= p)%Q.
Proof.
  unfold Qltb. rewrite negb_false_iff. apply Qle_bool_iff.
Qed.

Lemma trunc_floor q : (0 <= q)%Q -> trunc q = Qfloor q.
Proof.
  destruct q as [n d]. unfold Qle, trunc, Qfloor. cbn. intro H.
  apply Z.quot_div_nonneg; lia.
Qed.

Lemma trunc_ceiling q : (q <= 0)%Q -> trunc q = Qceiling q.
Proof.
  destruct q as [n d]. unfold Qle, trunc, Qceiling, Qfloor. cbn. intro H.
  rewrite <- (Z.opp_involutive n) at 1. rewrite Z.quot_opp_l by lia.
  f_equal. apply Z.quot_div_nonneg; lia.
Qed.

Lemma clamp_Fin q :
  clamp (Fin q)
  = if Qle_bool 1 q then Fin 1
    else if Qle_bool q (-1) then Fin (-1) else Fin q.
Proof.
  unfold clamp, Math_min, Math_max, flt, Qltb.
  destruct (Qle_bool 1 q); cbn; [reflexivity|].
  destruct (Qle_bool q (-1)); reflexivity.
Qed.

Lemma clamp_range x s : clamp x = Fin s -> (-1 <= s <= 1)%Q.
Proof.
  destruct x as [q | | |]; try (cbv; intros [= <-]; split; discriminate).
  rewrite clamp_Fin.
  destruct (Qle_bool 1 q) eqn:E1; [intros [= <-]; split; discriminate|].
  destruct (Qle_bool q (-1)) eqn:E2; intros [= <-]; [split; discriminate|].
  apply not_true_iff_false in E1, E2. rewrite Qle_bool_iff in E1, E2.
  split; apply Qlt_le_weak, Qnot_le_lt; assumption.
Qed.

(** The two nested calls of the source clamp as the specification says. *)
Lemma clamp_spec x : clamp x = spec_clamp x.
Proof.
  destruct x as [q | | |]; try reflexivity.
  rewrite clamp_Fin. unfold spec_clamp.
  destruct (Qle_bool 1 q) eqn:E1, (Qle_bool q (-1)) eqn:E2; try reflexivity.
  apply Qle_bool_iff in E1, E2. lra.
Qed.

(** A clamped sample is a number of [-1, 1]; only NaN stays NaN. *)
Lemma clamp_cases x :
  match clamp x with
  | Fin s => (-1 <= s <= 1)%Q
  | NaN => x = NaN
  | _ => False
  end.
Proof.
  destruct (clamp x) as [s | | |] eqn:E.
  - now apply (clamp_range x).
  - destruct x as [q | | |]; try discriminate. rewrite clamp_Fin in E.
    destruct (Qle_bool 1 q), (Qle_bool q (-1)); discriminate.
  - destruct x as [q | | |]; try discriminate. rewrite clamp_Fin in E.
    destruct (Qle_bool 1 q), (Qle_bool q (-1)); discriminate.
  - destruct x as [q | | |]; try discriminate; try reflexivity.
    rewrite clamp_Fin in E.
    destruct (Qle_bool 1 q), (Qle_bool q (-1)); discriminate.
Qed.

Lemma clamp_in_range q : (-1 <= q <= 1)%Q -> exists s, clamp (Fin q) = Fin s /\ s == q.
Proof.
  intros [H1 H2]. rewrite clamp_Fin.
  destruct (Qle_bool 1 q) eqn:E1.
  - apply Qle_bool_iff in E1. exists 1%Q. split; [reflexivity|]. lra.
  - destruct (Qle_bool q (-1)) eqn:E2.
    + apply Qle_bool_iff in E2. exists (-1)%Q. split; [reflexivity|]. lra.
    + exists q. split; reflexivity.
Qed.

Lemma clamp_idempotent x : clamp (clamp x) = clamp x.
Proof.
  destruct x as [q | | |]; try reflexivity.
  rewrite clamp_Fin.
  destruct (Qle_bool 1 q) eqn:E1; [reflexivity|].
  destruct (Qle_bool q (-1)) eqn:E2; [reflexivity|].
  rewrite clamp_Fin, E1, E2. reflexivity.
Qed.

Lemma wrap16_id n :
  -32768 <= n <= 32767 ->
  (let int16bit := n mod 65536 in
   if 32768 <=? int16bit then int16bit - 65536 else int16bit) = n.
Proof.
  intro H. cbv zeta. destruct (Z.leb_spec 32768 (n mod 65536)); divlia.
Qed.

Lemma scaled_range s :
  (-1 <= s <= 1)%Q ->
  -32768 <= (if Qltb s 0 then trunc (s * 32768) else trunc (s * 32767)) <= 32767.
Proof.
  intros [H1 H2]. destruct (Qltb s 0) eqn:E.
  - apply Qltb_lt in E.
    rewrite trunc_ceiling by lra.
    assert (Qceiling (inject_Z (-32768)) <= Qceiling (s * 32768)) as Hlo
      by (apply Qceiling_resp_le; unfold inject_Z; lra).
    assert (Qceiling (s * 32768) <= Qceiling (inject_Z 0)) as Hhi
      by (apply Qceiling_resp_le; unfold inject_Z; lra).
    rewrite Qceiling_Z in Hlo, Hhi. lia.
  - apply Qltb_ge in E.
    rewrite trunc_floor by lra.
    assert (Qfloor (inject_Z 0) <= Qfloor (s * 32767)) as Hlo
      by (apply Qfloor_resp_le; unfold inject_Z; lra).
    assert (Qfloor (s * 32767) <= Qfloor (inject_Z 32767)) as Hhi
      by (apply Qfloor_resp_le; unfold inject_Z; lra).
    rewrite Qfloor_Z in Hlo, Hhi. lia.
Qed.

Lemma ToInt16_pcm_sample x :
  ToInt16 (pcm_sample x) = spec_quantize x
  /\ -32768 <= spec_quantize x <= 32767.
Proof.
  unfold pcm_sample, spec_quantize. rewrite <- clamp_spec.
  destruct (clamp x) as [s | | |] eqn:E.
  - pose proof (scaled_range s (clamp_range _ _ E)) as Hr.
    cbn [flt]. split; [|exact Hr].
    destruct (Qltb s 0); cbn [fmul ToInt16]; apply wrap16_id; exact Hr.
  - split; [reflexivity | lia].
  - split; [reflexivity | lia].
  - split; [reflexivity | lia].
Qed.

Lemma to_N_ToUint8 m : Byte.to_N (ToUint8 m) = (m mod 256)%N.
Proof.
  unfold ToUint8. destruct (Byte.of_N (m mod 256)) as [b|] eqn:E.
  - now apply Byte.to_of_N.
  - apply Byte.of_N_None_iff in E. pose proof (N.mod_upper_bound m 256). lia.
Qed.

Lemma int16_of_bytes_int16_bytes n :
  -32768 <= n <= 32767 ->
  int16_pairs (int16_bytes n) = [n].
Proof.
  intro H. unfold int16_bytes. cbn [int16_pairs]. f_equal.
  unfold int16_of_bytes. rewrite !to_N_ToUint8.
  match goal with |- (if ?c <=? ?u then _ else _) = _ => destruct (Z.leb_spec c u) end;
  zify; divlia.
Qed.

Lemma int16_pairs_bytes l :
  Forall (fun n => -32768 <= n <= 32767) l ->
  int16_pairs (Uint8Array_of_Int16Array l) = l.
Proof.
  induction 1 as [|n l Hn _ IH]; [reflexivity|].
  unfold Uint8Array_of_Int16Array in *. cbn [flat_map].
  unfold int16_bytes at 1. cbn [app int16_pairs]. rewrite IH. f_equal.
  pose proof (int16_of_bytes_int16_bytes n Hn) as E.
  unfold int16_bytes in E. cbn [int16_pairs] in E. now injection E.
Qed.

Lemma length_Uint8Array_of_Int16Array l :
  length (Uint8Array_of_Int16Array l) = (2 * length l)%nat.
Proof.
  induction l as [|n l IH]; [reflexivity|].
  unfold Uint8Array_of_Int16Array in *. cbn [flat_map int16_bytes app length].
  rewrite IH. lia.
Qed.

Lemma Int16Array_of_buffer_bytes l :
  Forall (fun n => -32768 <= n <= 32767) l ->
  Int16Array_of_buffer (Uint8Array_of_Int16Array l) = Ok l.
Proof.
  intro H. unfold Int16Array_of_buffer.
  rewrite length_Uint8Array_of_Int16Array.
  replace (Nat.even (2 * length l)) with true
    by (symmetry; apply Nat.even_spec; now exists (length l)).
  now rewrite int16_pairs_bytes.
Qed.

Lemma fold_insert_replicate {A : Type} (h : nat -> A) (z : A) (n m : nat) :
  fold_left (fun l i => <[i := h i]> l) (seq 0 n) (replicate m z)
  = List.map h (seq 0 (min n m)) ++ replicate (m - n) z.
Proof.
  induction n as [|n IH].
  - cbn. now rewrite Nat.sub_0_r.
  - rewrite seq_S, fold_left_app, IH. cbn [fold_left Nat.add].
    destruct (le_lt_dec m n) as [Hle | Hlt].
    + rewrite list_insert_ge.
      * now replace (min (S n) m) with (min n m) by lia;
          replace (m - S n)%nat with (m - n)%nat by lia.
      * rewrite length_app, length_map, length_seq, length_replicate. lia.
    + replace (min n m) with n by lia. replace (min (S n) m) with (S n) by lia.
      rewrite seq_S, map_app, <- app_assoc. cbn [List.map app Nat.add].
      rewrite insert_app_r_alt by (rewrite length_map, length_seq; lia).
      rewrite length_map, length_seq, Nat.sub_diag.
      replace (m - n)%nat with (S (m - S n)) by lia. reflexivity.
Qed.

Lemma fold_update_replicate {A : Type} (g : nat -> A -> A) (z : A) (n m : nat) :
  fold_left
    (fun cs c =>
       match cs !! c with
       | Some cd => <[c := g c cd]> cs
       | None => cs
       end) (seq 0 n) (replicate m z)
  = List.map (fun c => g c z) (seq 0 (min n m)) ++ replicate (m - n) z.
Proof.
  induction n as [|n IH].
  - cbn. now rewrite Nat.sub_0_r.
  - rewrite seq_S, fold_left_app, IH. cbn [fold_left Nat.add].
    destruct (le_lt_dec m n) as [Hle | Hlt].
    + rewrite lookup_ge_None_2
        by (rewrite length_app, length_map, length_seq, length_replicate; lia).
      now replace (min (S n) m) with (min n m) by lia;
        replace (m - S n)%nat with (m - n)%nat by lia.
    + replace (min n m) with n by lia. replace (min (S n) m) with (S n) by lia.
      rewrite lookup_app_r by (rewrite length_map, length_seq; lia).
      rewrite length_map, length_seq, Nat.sub_diag.
      replace (m - n)%nat with (S (m - S n)) by lia. cbn [replicate lookup list_lookup].
      rewrite seq_S, map_app, <- app_assoc. cbn [List.map app Nat.add].
      rewrite insert_app_r_alt by (rewrite length_map, length_seq; lia).
      rewrite length_map, length_seq, Nat.sub_diag. reflexivity.
Qed.

Lemma length_int16_pairs data :
  length (int16_pairs data) = Nat.div2 (length data).
Proof.
  assert (H : forall d : list byte,
             length (int16_pairs d) = Nat.div2 (length d)
             /\ forall b, length (int16_pairs (b :: d)) = Nat.div2 (length (b :: d))).
  { induction d as [|x d [IH1 IH2]].
    - split; reflexivity.
    - split; [apply IH2|]. intro b. cbn [int16_pairs length Nat.div2].
      now rewrite IH1. }
  apply H.
Qed.

Lemma fdiv_counts (a b : nat) :
  (1 <= b)%nat ->
  fdiv (Fin (inject_Z (Z.of_nat a))) (Fin (inject_Z (Z.of_nat b)))
  = Fin (inject_Z (Z.of_nat a) / inject_Z (Z.of_nat b)).
Proof.
  intro Hb. unfold fdiv.
  destruct (Qeq_bool (inject_Z (Z.of_nat b)) 0) eqn:E; [|reflexivity].
  apply Qeq_bool_iff in E. unfold Qeq in E. cbn in E. lia.
Qed.

Lemma Qdiv_counts_nonneg (a b : nat) :
  (1 <= b)%nat -> (0 <= inject_Z (Z.of_nat a) / inject_Z (Z.of_nat b))%Q.
Proof.
  intro Hb. apply Qle_shift_div_l.
  - replace 0%Q with (inject_Z 0) by reflexivity. rewrite <- Zlt_Qlt. lia.
  - rewrite Qmult_0_l. replace 0%Q with (inject_Z 0) by reflexivity.
    rewrite <- Zle_Qle. lia.
Qed.

Lemma trunc_counts (a b : nat) :
  (1 <= b)%nat ->
  trunc (inject_Z (Z.of_nat a) / inject_Z (Z.of_nat b)) = Z.of_nat (a / b).
Proof.
  intro Hb. rewrite trunc_floor by now apply Qdiv_counts_nonneg.
  now rewrite <- Zdiv_Qdiv, Nat2Z.inj_div.
Qed.

Lemma loop_count_counts (a b : nat) :
  (1 <= b)%nat ->
  (a / b <= loop_count (Fin (inject_Z (Z.of_nat a) / inject_Z (Z.of_nat b))))%nat.
Proof.
  intro Hb. unfold loop_count.
  set (q := (inject_Z (Z.of_nat a) / inject_Z (Z.of_nat b))%Q).
  pose proof (Qle_floor_ceiling q) as H. rewrite <- Zle_Qle in H.
  unfold q in H at 1. rewrite <- Zdiv_Qdiv, <- Nat2Z.inj_div in H. lia.
Qed.

Lemma decodeAudioData_even (data : list byte) (rate : Z) (nc : nat) :
  Nat.even (length data) = true ->
  (1 <= nc <= 32)%nat -> 8000 <= rate <= 96000 ->
  let frames := (Nat.div2 (length data) / nc)%nat in
  (1 <= frames)%nat -> Z.of_nat frames < 4294967296 ->
  decodeAudioData data rate nc
  = Ok (mkAudioBuffer nc frames rate
          (List.map
             (fun c =>
                List.map (fun i => sample_at (int16_pairs data) (i * nc + c))
                  (seq 0 frames))
             (seq 0 nc))).
Proof.
  intros Heven Hnc Hrate frames Hf1 Hf2.
  unfold decodeAudioData, Int16Array_of_buffer. rewrite Heven. cbn [bind].
  rewrite length_int16_pairs, fdiv_counts by lia.
  unfold createBuffer, ToUint32. rewrite trunc_counts by lia.
  fold frames. rewrite Z.mod_small by lia. rewrite Nat2Z.id.
  replace ((1 <=? nc)%nat && (nc <=? 32)%nat && (1 <=? frames)%nat
           && (8000 <=? rate) && (rate <=? 96000)) with true.
  2:{ symmetry. rewrite !andb_true_iff, !Nat.leb_le, !Z.leb_le. lia. }
  cbn [bind numberOfChannels buffer_length sampleRate channels].
  do 2 f_equal. unfold fill_channels.
  rewrite fold_update_replicate, Nat.min_id, Nat.sub_diag, app_nil_r.
  apply List.map_ext. intro c. unfold fill_channel.
  rewrite (fold_insert_replicate
             (fun i => sample_at (int16_pairs data) (i * nc + c))).
  pose proof (loop_count_counts (Nat.div2 (length data)) nc ltac:(lia)) as Hl.
  fold frames in Hl.
  rewrite Nat.min_r by lia.
  replace (frames - _)%nat with 0%nat by lia. apply app_nil_r.
Qed.

Lemma decodeAudioData_odd (data : list byte) (rate : Z) (nc : nat) :
  Nat.even (length data) = false ->
  decodeAudioData data rate nc = Throw RangeError.
Proof.
  intro H. unfold decodeAudioData, Int16Array_of_buffer. now rewrite H.
Qed.

Lemma decodeAudioData_no_frame (data : list byte) (rate : Z) (nc : nat) :
  Nat.even (length data) = true ->
  (Nat.div2 (length data) / nc = 0)%nat ->
  decodeAudioData data rate nc = Throw NotSupportedError.
Proof.
  intros Heven H0.
  unfold decodeAudioData, Int16Array_of_buffer. rewrite Heven. cbn [bind].
  rewrite length_int16_pairs.
  destruct nc as [|nc].
  - unfold createBuffer. reflexivity.
  - rewrite fdiv_counts by lia.
    unfold createBuffer, ToUint32. rewrite trunc_counts by lia.
    rewrite H0. cbn [Z.of_nat Z.modulo Z.div_eucl Z.to_nat snd].
    rewrite !andb_false_r. reflexivity.
Qed.

Lemma int16_pairs_lookup (data : list byte) (k : nat) :
  (k < Nat.div2 (length data))%nat ->
  int16_pairs data !! k
  = Some (int16_of_bytes (nth (2 * k) data x00) (nth (2 * k + 1) data x00)).
Proof.
  revert data. induction k as [|k IH]; intros [|lo [|hi r]] H;
    cbn [length Nat.div2] in H; try lia.
  - reflexivity.
  - cbn [int16_pairs]. rewrite lookup_cons. 
    replace (2 * S k)%nat with (S (S (2 * k))) by lia.
    cbn [nth Nat.add]. apply IH. lia.
Qed.

Lemma sample_at_spec (data : list byte) (k : nat) :
  (k < Nat.div2 (length data))%nat ->
  sample_at (int16_pairs data) k = spec_sample data k.
Proof.
  intro H. unfold sample_at. rewrite int16_pairs_lookup by assumption.
  reflexivity.
Qed.

(** C5, as amended: for 1 to 32 channels and a rate the platform accepts,
    [decodeAudioData] throws [RangeError] exactly when the byte length is
    odd and [NotSupportedError] when the bytes hold no complete frame;
    every other length is accepted, also one that is not a multiple of
    [2 * numChannels], the bytes after the last complete frame being
    dropped.  The buffer then has [length / (2 * numChannels)] frames,
    and sample [i] of channel [c] is bytes [2 (i * numChannels + c)] and
    the next, read as a signed 16-bit little-endian integer and divided
    by 32768. *)
Theorem decodeAudioData_by_length (data : list byte) (rate : Z) (nc : nat) :
  (1 <= nc <= 32)%nat -> 8000 <= rate <= 96000 ->
  Z.of_nat (length data) < 4294967296 ->
  let frames := (length data / (2 * nc))%nat in
  decodeAudioData data rate nc
  = if Nat.even (length data) then
      if (frames =? 0)%nat then Throw NotSupportedError
      else Ok (mkAudioBuffer nc frames rate
                 (List.map
                    (fun c =>
                       List.map (fun i => spec_sample data (i * nc + c))
                         (seq 0 frames))
                    (seq 0 nc)))
    else Throw RangeError.
Proof.
  intros Hnc Hrate Hlen frames.
  assert (Hframes : (Nat.div2 (length data) / nc)%nat = frames).
  { unfold frames. now rewrite Nat.div2_div, Nat.Div0.div_div. }
  destruct (Nat.even (length data)) eqn:Heven.
  2:{ now apply decodeAudioData_odd. }
  destruct (Nat.eqb_spec frames 0) as [H0 | H0].
  { apply decodeAudioData_no_frame; [assumption | now rewrite Hframes]. }
  assert (Hle : (frames <= length data)%nat).
  { unfold frames. apply Nat.Div0.div_le_upper_bound. nia. }
  rewrite decodeAudioData_even; try assumption; rewrite Hframes; try lia.
  do 2 f_equal. apply List.map_ext_in. intros c Hc. apply in_seq in Hc.
  apply List.map_ext_in. intros i Hi. apply in_seq in Hi.
  apply sample_at_spec.
  pose proof (Nat.Div0.mul_div_le (Nat.div2 (length data)) nc) as Hm.
  rewrite Hframes in Hm. nia.
Qed.

(** The amended C5 at four bytes and one channel. *)
Lemma decodeAudioData_by_length_witness :
  decodeAudioData [x01; x02; x03; x04] 24000 1
  = Ok (mkAudioBuffer 1 2 24000 [[Fin (513 # 32768); Fin (1027 # 32768)]]).
Proof.
  apply (decodeAudioData_by_length [x01; x02; x03; x04] 24000 1);
    cbn; lia.
Defined.

(** C5 as stated fails: six bytes are not a multiple of [2 * 2], and
    [decodeAudioData] with two channels returns a buffer of one frame. *)
Lemma decodeAudioData_accepts_partial_frame :
  Z.of_nat (length [x01; x02; x03; x04; x05; x06]) mod (2 * 2) <> 0
  /\ decodeAudioData [x01; x02; x03; x04; x05; x06] 24000 2
     = Ok (mkAudioBuffer 2 1 24000 [[Fin (513 # 32768)]; [Fin (1027 # 32768)]]).
Proof.
  split; [discriminate | reflexivity].
Qed.

Lemma createPcmBlob_ok (data : list float) :
  createPcmBlob data
  = Ok (mkBlob
          (Base64.encode_groups
             (List.map Byte.to_N
                (Uint8Array_of_Int16Array (List.map spec_quantize data))))
          (js "audio/pcm;rate=16000")).
Proof.
  unfold createPcmBlob. rewrite encodeBase64_ok. cbn [bind].
  do 5 f_equal. apply List.map_ext. intro x. apply ToInt16_pcm_sample.
Qed.

Lemma spec_quantize_clamp x : spec_quantize (spec_clamp x) = spec_quantize x.
Proof. unfold spec_quantize. now rewrite <- !clamp_spec, clamp_idempotent. Qed.

Lemma Forall_spec_quantize (data : list float) :
  Forall (fun n => -32768 <= n <= 32767) (List.map spec_quantize data).
Proof.
  apply List.Forall_forall. intros n Hn. apply in_map_iff in Hn.
  destruct Hn as (x & <- & _). apply ToInt16_pcm_sample.
Qed.

(** C7: for every frame, [createPcmBlob] of the frame is [createPcmBlob]
    of the clamped frame; every clamped sample lies in [-1, 1] (or is
    NaN, for a NaN sample); the integer stored for a sample is the
    truncation of the clamped sample scaled by 32768 when negative and by
    32767 otherwise, which lies in the signed 16-bit range, so the store
    never wraps; and the text of the chunk decodes to bytes that read, as
    little-endian 16-bit integers, as exactly these integers. *)
Theorem createPcmBlob_clamps (data : list float) :
  createPcmBlob data = createPcmBlob (List.map spec_clamp data)
  /\ Forall
       (fun x =>
          match spec_clamp x with
          | Fin s => (-1 <= s <= 1)%Q
          | NaN => x = NaN
          | _ => False
          end
          /\ ToInt16 (pcm_sample x) = spec_quantize x
          /\ -32768 <= spec_quantize x <= 32767) data
  /\ exists text,
       createPcmBlob data = Ok (mkBlob text (js "audio/pcm;rate=16000"))
       /\ bind (decodeBase64 text) Int16Array_of_buffer
          = Ok (List.map spec_quantize data).
Proof.
  split; [|split].
  - rewrite !createPcmBlob_ok. do 5 f_equal. rewrite List.map_map.
    apply List.map_ext. intro x. symmetry. apply spec_quantize_clamp.
  - apply List.Forall_forall. intros x _. split.
    + rewrite <- clamp_spec. apply clamp_cases.
    + apply ToInt16_pcm_sample.
  - eexists. split; [apply createPcmBlob_ok|].
    rewrite decodeBase64_encode_groups. cbn [bind].
    apply Int16Array_of_buffer_bytes, Forall_spec_quantize.
Qed.

(** The samples 1.5 and -2.0 encode as 1.0 and -1.0 do. *)
Example createPcmBlob_out_of_range :
  createPcmBlob [Fin (3 # 2); Fin (-2)] = createPcmBlob [Fin 1; Fin (-1)]
  /\ List.map (fun x => ToInt16 (pcm_sample x)) [Fin (3 # 2); Fin (-2)]
     = [32767; -32768].
Proof. split; reflexivity. Qed.

Lemma samples_of_list (l : list Z) :
  List.map (fun i => sample_at l (i * 1 + 0)) (seq 0 (length l))
  = List.map (fun v => Fin (inject_Z v / 32768)) l.
Proof.
  induction l as [|v l IH]; [reflexivity|].
  cbn [length seq List.map]. f_equal.
  rewrite <- seq_shift, List.map_map, <- IH.
  apply List.map_ext. intro i.
  replace (S i * 1 + 0)%nat with (S (i * 1 + 0)) by lia. reflexivity.
Qed.

Lemma decode_of_encode_ok (frame : list float) (rate : Z) :
  frame <> [] -> Z.of_nat (length frame) < 4294967296 ->
  8000 <= rate <= 96000 ->
  decode_of_encode frame rate
  = Ok (mkAudioBuffer 1 (length frame) rate
          [List.map (fun x => Fin (inject_Z (spec_quantize x) / 32768)) frame]).
Proof.
  intros Hne Hlen Hrate. unfold decode_of_encode.
  rewrite createPcmBlob_ok. cbn [bind blob_data].
  rewrite decodeBase64_encode_groups. cbn [bind].
  set (ints := List.map spec_quantize frame).
  assert (Hl : length (Uint8Array_of_Int16Array ints) = (2 * length frame)%nat).
  { rewrite length_Uint8Array_of_Int16Array. unfold ints. now rewrite length_map. }
  assert (Hd : Nat.div2 (2 * length frame) = length frame).
  { rewrite Nat.div2_div, Nat.mul_comm. apply Nat.div_mul. discriminate. }
  assert (Hpos : (1 <= length frame)%nat).
  { destruct frame; [contradiction | cbn; lia]. }
  rewrite decodeAudioData_even; rewrite ?Hl, ?Hd, ?Nat.div_1_r; try lia.
  2:{ apply Nat.even_spec. now exists (length frame). }
  do 2 f_equal. cbn [seq List.map]. f_equal.
  rewrite int16_pairs_bytes by apply Forall_spec_quantize.
  replace (length frame) with (length ints) by (unfold ints; apply length_map).
  rewrite samples_of_list. unfold ints. apply List.map_map.
Qed.

Lemma quantize_error (p : Q) :
  (-1 <= p <= 1)%Q ->
  let y := (inject_Z (spec_quantize (Fin p)) / 32768)%Q in
  (Qabs (p - y) < 2 # 32768)%Q
  /\ ((p <= 0)%Q -> (Qabs (p - y) < 1 # 32768)%Q).
Proof.
  intros Hp y. unfold y, spec_quantize. rewrite <- clamp_spec.
  destruct (clamp_in_range p Hp) as (s & -> & Hs).
  destruct (Qltb s 0) eqn:E.
  - apply Qltb_lt in E. rewrite trunc_ceiling by lra.
    pose proof (Qle_ceiling (s * 32768)) as H1.
    pose proof (Qceiling_lt (s * 32768)) as H2.
    unfold Z.sub in H2. rewrite inject_Z_plus, inject_Z_opp in H2.
    set (z := inject_Z (Qceiling (s * 32768))) in *.
    change (inject_Z 1) with 1%Q in H2.
    unfold Qdiv. change (/ 32768)%Q with (1 # 32768)%Q.
    split; [|intros _]; apply Qabs_Qlt_condition; split; lra.
  - apply Qltb_ge in E. rewrite trunc_floor by lra.
    pose proof (Qfloor_le (s * 32767)) as H1.
    pose proof (Qlt_floor (s * 32767)) as H2.
    rewrite inject_Z_plus in H2.
    set (z := inject_Z (Qfloor (s * 32767))) in *.
    change (inject_Z 1) with 1%Q in H2.
    unfold Qdiv. change (/ 32768)%Q with (1 # 32768)%Q.
    split; [|intros Hle]; apply Qabs_Qlt_condition; split; lra.
Qed.

(** C8 as stated fails: the sample 0.75 + 2^-17 lies in [-1, 1], encodes
    to 24575 and decodes to 24575/32768, which is 1.25/32768 away. *)
Lemma decode_of_encode_exceeds_bound :
  (-1 <= 98305 # 131072 <= 1)%Q
  /\ decode_of_encode [Fin (98305 # 131072)] 24000
     = Ok (mkAudioBuffer 1 1 24000 [[Fin (24575 # 32768)]])
  /\ ~ (Qabs ((98305 # 131072) - (24575 # 32768)) <= 1 # 32768)%Q.
Proof.
  split; [split; discriminate|]. split; [reflexivity|].
  intro H. vm_compute in H. apply H. reflexivity.
Qed.

(** C8, as amended: for every nonempty one-channel frame of samples in
    [-1, 1], decoding the encoded frame succeeds, gives a buffer of the
    same length, and reproduces each sample with an error below 2/32768;
    for a sample that is not positive the error is below 1/32768. *)
Theorem decode_of_encode_error (samples : list Q) (rate : Z) :
  samples <> [] -> Z.of_nat (length samples) < 4294967296 ->
  8000 <= rate <= 96000 ->
  Forall (fun p => (-1 <= p <= 1)%Q) samples ->
  exists out : list Q,
    decode_of_encode (List.map Fin samples) rate
    = Ok (mkAudioBuffer 1 (length samples) rate [List.map Fin out])
    /\ Forall2
         (fun p y =>
            (Qabs (p - y) < 2 # 32768)%Q
            /\ ((p <= 0)%Q -> (Qabs (p - y) < 1 # 32768)%Q))
         samples out.
Proof.
  intros Hne Hlen Hrate Hin.
  exists (List.map (fun p => inject_Z (spec_quantize (Fin p)) / 32768)%Q samples).
  split.
  - rewrite decode_of_encode_ok; rewrite ?length_map; try assumption.
    + now rewrite !List.map_map.
    + destruct samples; [contradiction | discriminate].
  - clear Hne Hlen. induction Hin as [|p l Hp _ IH]; cbn [List.map].
    + constructor.
    + constructor; [apply quantize_error, Hp | apply IH].
Qed.

(** The amended C8 at the frame [0.75; -0.5]. *)
Lemma decode_of_encode_error_witness :
  exists out : list Q,
    decode_of_encode [Fin (3 # 4); Fin (- (1 # 2))] 24000
    = Ok (mkAudioBuffer 1 2 24000 [List.map Fin out])
    /\ Forall2
         (fun p y =>
            (Qabs (p - y) < 2 # 32768)%Q
            /\ ((p <= 0)%Q -> (Qabs (p - y) < 1 # 32768)%Q))
         [3 # 4; - (1 # 2)]%Q out.
Proof.
  apply (decode_of_encode_error [3 # 4; - (1 # 2)]%Q 24000).
  - discriminate.
  - reflexivity.
  - lia.
  - repeat constructor; discriminate.
Defined.

(** ** The playback scheduler and the session *)

Lemma scheduled_app e1 e2 : scheduled (e1 ++ e2) = scheduled e1 ++ scheduled e2.
Proof.
  induction e1 as [|e e1 IH]; [reflexivity|].
  destruct e; cbn [app scheduled]; now rewrite ?IH.
Qed.

Lemma scheduled_stops l : scheduled (List.map SourceStop l) = [].
Proof. induction l; auto. Qed.

Lemma run_deliver_cons s nm msgs :
  run s (deliver (nm :: msgs))
  = (fst (run (fst (handleServerMessage (fst nm) (snd nm) s)) (deliver msgs)),
     snd (handleServerMessage (fst nm) (snd nm) s)
       ++ snd (run (fst (handleServerMessage (fst nm) (snd nm) s)) (deliver msgs))).
Proof.
  cbn [deliver List.map run step].
  destruct (handleServerMessage (fst nm) (snd nm) s) as [s1 e1].
  cbn [fst snd]. fold (deliver msgs).
  now destruct (run s1 (deliver msgs)).
Qed.

Lemma Math_max_Q_timely (t now : Q) : (now <= t)%Q -> Math_max_Q t now = t.
Proof.
  intro H. unfold Math_max_Q. apply Qltb_ge in H. now rewrite H.
Qed.

(** What one audio message does to the schedule. *)
Lemma handleServerMessage_schedule now m s :
  message_interrupted m = false ->
  let r := handleServerMessage now m s in
  let M := Math_max_Q (nextStartTime s) now in
  (scheduled (snd r) = []
   /\ (nextStartTime (fst r) = nextStartTime s \/ nextStartTime (fst r) = M))
  \/ (exists d, scheduled (snd r) = [(M, d)]
              /\ nextStartTime (fst r) = (M + d)%Q).
Proof.
  intros Hi r M. subst r. unfold handleServerMessage. rewrite Hi.
  destruct (outputAudioContext s); cbn [negb]; [|left; auto].
  destruct (message_audio m) as [[|c data]|]; [left; auto | | left; auto].
  match goal with |- context [match ?x with Ok _ => _ | Throw _ => _ end] =>
    destruct x as [b | e] end.
  - right. exists (duration b). split; reflexivity.
  - left. split; [reflexivity | right; reflexivity].
Qed.

Lemma timely_chain msgs : forall s,
  Forall (fun nm => message_interrupted (snd nm) = false) msgs ->
  timely s msgs ->
  let l := scheduled (snd (run s (deliver msgs))) in
  back_to_back l
  /\ match l with
     | (t, _) :: _ => t = nextStartTime s
     | [] => True
     end.
Proof.
  induction msgs as [|nm msgs IH]; intros s Hni Ht; [cbn; auto|].
  inversion_clear Hni as [|? ? Hi Hni']. destruct Ht as [Hnow Ht].
  cbv zeta. rewrite run_deliver_cons. cbn [snd]. rewrite scheduled_app.
  specialize (IH _ Hni' Ht). cbv zeta in IH. destruct IH as [IH1 IH2].
  pose proof (handleServerMessage_schedule (fst nm) (snd nm) s Hi) as Hs.
  cbv zeta in Hs. rewrite (Math_max_Q_timely _ _ Hnow) in Hs.
  destruct Hs as [[-> Hn] | (d & -> & Hn)]; cbn [app].
  - split; [assumption|].
    destruct (scheduled _) as [|[t d] r]; [trivial|].
    rewrite IH2. now destruct Hn.
  - cbn [back_to_back]. split; [|reflexivity].
    split; [|assumption].
    destruct (scheduled _) as [|[t d'] r]; [trivial|]. now rewrite IH2.
Qed.

Lemma started_app e1 e2 : started (e1 ++ e2) = started e1 ++ started e2.
Proof.
  induction e1 as [|e e1 IH]; [reflexivity|].
  destruct e; cbn [app started]; now rewrite ?IH.
Qed.

(** What one audio message does on a started session: the segment it
    carries, if any, is started at [max(nextStartTime, now)]. *)
Lemma handleServerMessage_started now m s :
  outputAudioContext s = true -> message_interrupted m = false ->
  let r := handleServerMessage now m s in
  let M := Math_max_Q (nextStartTime s) now in
  outputAudioContext (fst r) = true
  /\ match message_segment m with
     | Some b =>
         started (snd r) = [(M, b)] /\ nextStartTime (fst r) = (M + duration b)%Q
     | None =>
         started (snd r) = []
         /\ (nextStartTime (fst r) = nextStartTime s \/ nextStartTime (fst r) = M)
     end.
Proof.
  intros Hc Hi r M. subst r M.
  unfold handleServerMessage, message_segment, decode_segment.
  rewrite Hc, Hi. cbn [negb].
  destruct (message_audio m) as [[|c data]|]; [cbn; auto | | cbn; auto].
  match goal with |- context [match ?x with Ok _ => _ | Throw _ => _ end] =>
    destruct x as [b | e] end.
  - cbn. auto.
  - cbn. auto.
Qed.

Lemma timely_gapless msgs : forall s,
  outputAudioContext s = true ->
  Forall (fun nm => message_interrupted (snd nm) = false) msgs ->
  timely s msgs ->
  started (snd (run s (deliver msgs))) = gapless (nextStartTime s) (segments msgs).
Proof.
  induction msgs as [|nm msgs IH]; intros s Hc Hni Ht; [reflexivity|].
  inversion_clear Hni as [|? ? Hi Hni']. destruct Ht as [Hnow Ht].
  rewrite run_deliver_cons. cbn [snd]. rewrite started_app.
  destruct (handleServerMessage_started (fst nm) (snd nm) s Hc Hi) as [Hc' Hs].
  cbv zeta in Hc', Hs. rewrite (Math_max_Q_timely _ _ Hnow) in Hs.
  rewrite (IH _ Hc' Hni' Ht). cbn [segments].
  destruct (message_segment (snd nm)) as [b|].
  - destruct Hs as [-> ->]. reflexivity.
  - destruct Hs as [-> [-> | ->]]; reflexivity.
Qed.

(** C1: for every sequence of audio messages (none of them an
    interruption), if every message after the first is handled while the
    clock reading does not exceed the pending [nextStartTime], then the
    segments the handler schedules are back to back: each starts exactly
    at the start of the one before it plus its duration.  On a started
    session the handler starts exactly the segments the messages carry,
    each once and in arrival order, the first of them at [t0] and every
    other one where the one before it ends; [t0] is
    [max(nextStartTime, now)] of the first message when that message
    carries a segment.  Messages whose audio is absent or does not decode
    start nothing and leave the chain intact. *)
Theorem scheduler_gapless (s : InterviewSession)
    (first : Q * LiveServerMessage) (rest : list (Q * LiveServerMessage)) :
  Forall (fun nm => message_interrupted (snd nm) = false) (first :: rest) ->
  timely (fst (handleServerMessage (fst first) (snd first) s)) rest ->
  back_to_back (scheduled (snd (run s (deliver (first :: rest)))))
  /\ (outputAudioContext s = true ->
      exists t0,
        started (snd (run s (deliver (first :: rest))))
        = gapless t0 (segments (first :: rest))
        /\ (t0 = nextStartTime s
            \/ t0 = Math_max_Q (nextStartTime s) (fst first))
        /\ (message_segment (snd first) <> None ->
            t0 = Math_max_Q (nextStartTime s) (fst first))).
Proof.
  intros Hni Ht. inversion_clear Hni as [|? ? Hi Hni']. split.
  - rewrite run_deliver_cons. cbn [snd]. rewrite scheduled_app.
    destruct (timely_chain rest _ Hni' Ht) as [H1 H2]. cbv zeta in H1, H2.
    pose proof (handleServerMessage_schedule (fst first) (snd first) s Hi) as Hs.
    cbv zeta in Hs.
    destruct Hs as [[-> _] | (d & -> & Hn)]; cbn [app]; [assumption|].
    cbn [back_to_back]. split; [|assumption].
    destruct (scheduled _) as [|[t d'] r]; [trivial|]. now rewrite H2.
  - intro Hc. rewrite run_deliver_cons. cbn [snd]. rewrite started_app.
    destruct (handleServerMessage_started (fst first) (snd first) s Hc Hi)
      as [Hc' Hs].
    cbv zeta in Hc', Hs.
    rewrite (timely_gapless rest _ Hc' Hni' Ht). cbn [segments].
    destruct (message_segment (snd first)) as [b|].
    + destruct Hs as [-> ->].
      exists (Math_max_Q (nextStartTime s) (fst first)).
      split; [reflexivity | split; [right; reflexivity | reflexivity]].
    + destruct Hs as [-> Hn].
      exists (nextStartTime (fst (handleServerMessage (fst first) (snd first) s))).
      split; [reflexivity | split; [exact Hn | intro H; now contradiction H]].
Qed.

(** C1 at four messages, the third of which does not decode: the three
    segments are started in arrival order, the first at the clock reading
    and each of the others where the one before it ends. *)
Lemma scheduler_gapless_witness :
  exists b1 b2,
    decode_segment (js "AAAAAAAA") = Ok b1
    /\ decode_segment (js "AAAAAAAAAAAAAAAA") = Ok b2
    /\ started
         (snd (run playing_session
                 (deliver [(1 # 2, audio_message (js "AAAAAAAA"));
                           (1 # 2, audio_message (js "AAAAAAAAAAAAAAAA"));
                           (1 # 2, audio_message (js "AAAA"));
                           (5001 # 10000, audio_message (js "AAAAAAAA"))%Q])))
       = [(1 # 2, b1);
          ((1 # 2) + duration b1, b2);
          ((1 # 2) + duration b1 + duration b2, b1)]%Q.
Proof.
  destruct (decode_segment (js "AAAAAAAA")) as [b1|e] eqn:E1;
    [|vm_compute in E1; discriminate E1].
  destruct (decode_segment (js "AAAAAAAAAAAAAAAA")) as [b2|e] eqn:E2;
    [|vm_compute in E2; discriminate E2].
  exists b1, b2. split; [reflexivity | split; [reflexivity|]].
  destruct (scheduler_gapless playing_session
              (1 # 2, audio_message (js "AAAAAAAA"))%Q
              [(1 # 2, audio_message (js "AAAAAAAAAAAAAAAA"));
               (1 # 2, audio_message (js "AAAA"));
               (5001 # 10000, audio_message (js "AAAAAAAA"))%Q])
    as [_ H].
  - repeat constructor.
  - cbn [timely fst snd]. repeat split; vm_compute; discriminate.
  - destruct (H eq_refl) as (t0 & Hs & _ & Ht0). rewrite Hs.
    rewrite Ht0 by (vm_compute; discriminate).
    vm_compute in E1, E2. injection E1 as <-. injection E2 as <-.
    vm_compute. reflexivity.
Defined.

Lemma Math_max_Q_zero (now : Q) : (0 <= now)%Q -> Math_max_Q 0 now == now.
Proof.
  intro H. unfold Math_max_Q. destruct (Qltb 0 now) eqn:E; [reflexivity|].
  apply Qltb_ge in E. now apply Qle_antisym.
Qed.

Lemma handleServerMessage_interrupted now m s :
  outputAudioContext s = true -> message_interrupted m = true ->
  handleServerMessage now m s
  = (set_nextStartTime 0 (set_sources [] s), List.map SourceStop (sources s)).
Proof.
  intros Hc Hi. unfold handleServerMessage. now rewrite Hc, Hi.
Qed.

Lemma handleServerMessage_audio now m s data b :
  outputAudioContext s = true -> message_interrupted m = false ->
  message_audio m = Some data -> data <> [] -> decode_segment data = Ok b ->
  handleServerMessage now m s
  = (set_sources (sources s ++ [next_source s])
       (set_nextStartTime (Math_max_Q (nextStartTime s) now + duration b)
          (set_next_source (S (next_source s))
             (set_nextStartTime (Math_max_Q (nextStartTime s) now) s))),
     [SourceStart (next_source s) (Math_max_Q (nextStartTime s) now) b]).
Proof.
  intros Hc Hi Ha Hne Hd. unfold handleServerMessage.
  rewrite Hc, Hi, Ha. cbn [negb].
  destruct data as [|c data]; [contradiction|].
  unfold decode_segment in Hd. rewrite Hd. reflexivity.
Qed.

(** C2: on a started session, a message with the interrupted flag stops
    every source of the active set, empties the set and resets
    [nextStartTime] to zero; the next audio message, handled at clock
    reading [now'], is then scheduled to start at [now']. *)
Theorem interrupt_resets_schedule (s : InterviewSession) (now now' : Q)
    (m m' : LiveServerMessage) (data : jsstring) (b : AudioBuffer) :
  outputAudioContext s = true ->
  message_interrupted m = true ->
  message_interrupted m' = false ->
  message_audio m' = Some data -> data <> [] -> decode_segment data = Ok b ->
  (0 <= now')%Q ->
  let s1 := fst (handleServerMessage now m s) in
  snd (handleServerMessage now m s) = List.map SourceStop (sources s)
  /\ sources s1 = []
  /\ nextStartTime s1 = 0%Q
  /\ exists t,
       snd (handleServerMessage now' m' s1) = [SourceStart (next_source s) t b]
       /\ t == now'.
Proof.
  intros Hc Hi Hi' Ha Hne Hd Hnow'.
  rewrite (handleServerMessage_interrupted now m s Hc Hi). cbn [fst snd].
  repeat split.
  exists (Math_max_Q 0 now'). split; [|now apply Math_max_Q_zero].
  now rewrite (handleServerMessage_audio now' m' _ data b).
Qed.

(** C2 at a session with one segment playing. *)
Lemma interrupt_resets_schedule_witness :
  let s := fst (run playing_session
                  (deliver [(1 # 2, audio_message (js "AAAAAAAA"))%Q])) in
  let s1 := fst (handleServerMessage (3 # 5) (interrupted_message None) s) in
  snd (handleServerMessage (3 # 5) (interrupted_message None) s)
  = List.map SourceStop (sources s)
  /\ sources s1 = []
  /\ nextStartTime s1 = 0%Q
  /\ exists t,
       snd (handleServerMessage (7 # 10) (audio_message (js "AAAA////")) s1)
       = [SourceStart (next_source s) t
            (mkAudioBuffer 1 3 24000
               [[Fin (0 # 32768); Fin (-256 # 32768); Fin (-1 # 32768)]])]
       /\ t == 7 # 10.
Proof.
  cbv zeta.
  apply (interrupt_resets_schedule _ (3 # 5) (7 # 10) (interrupted_message None)
           (audio_message (js "AAAA////")) (js "AAAA////")).
  - reflexivity.
  - reflexivity.
  - reflexivity.
  - reflexivity.
  - discriminate.
  - reflexivity.
  - discriminate.
Defined.

(** C10: on a started session, a message that carries both the
    interrupted flag and an audio payload only interrupts: the sources are
    stopped, the set emptied and [nextStartTime] reset, nothing is
    scheduled and no source node is created for the payload. *)
Theorem interrupted_message_discards_audio (s : InterviewSession) (now : Q)
    (m : LiveServerMessage) (data : jsstring) :
  outputAudioContext s = true ->
  message_interrupted m = true ->
  message_audio m = Some data ->
  handleServerMessage now m s
  = (set_nextStartTime 0 (set_sources [] s), List.map SourceStop (sources s))
  /\ scheduled (snd (handleServerMessage now m s)) = []
  /\ next_source (fst (handleServerMessage now m s)) = next_source s.
Proof.
  intros Hc Hi _. rewrite (handleServerMessage_interrupted now m s Hc Hi).
  cbn [fst snd]. repeat split. apply scheduled_stops.
Qed.

(** ** Teardown and the analysis of a CV *)

(** [stop()] twice calls the disconnect callback twice, in any session
    that has one. *)
Lemma stop_events (s : InterviewSession) :
  onDisconnect s = true ->
  count_disconnects (snd (run s [CallStop; CallStop])) = 2%nat.
Proof.
  intro H. cbn [run step stop fst snd]. unfold stop.
  cbn [cleanup onDisconnect set_active]. rewrite H.
  destruct (cleanup s); reflexivity.
Qed.

(** A segment that has played to its end has left the active set: an
    interruption does not stop it. *)
Lemma ended_source_not_stopped (s : InterviewSession) (source : nat)
    (now : Q) (m : LiveServerMessage) :
  ~ In (SourceStop source)
      (snd (handleServerMessage now m (fst (onended source s)))).
Proof.
  unfold handleServerMessage, onended. cbn [fst outputAudioContext sources set_sources].
  destruct (outputAudioContext s); cbn [negb]; [|intros []].
  destruct (message_interrupted m).
  - cbn [snd]. intro H. apply in_map_iff in H. destruct H as (x & [= ->] & H).
    apply filter_In in H. destruct H as [_ H].
    now rewrite Nat.eqb_refl in H.
  - destruct (message_audio m) as [[|c data]|]; try (intros []).
    match goal with |- context [match ?x with Ok _ => _ | Throw _ => _ end] =>
      destruct x end; cbn [snd]; intros [H | []]; discriminate.
Qed.

(** C10 at a session with one segment playing. *)
Lemma interrupted_message_discards_audio_witness :
  let s := fst (run playing_session
                  (deliver [(1 # 2, audio_message (js "AAAAAAAA"))%Q])) in
  let m := interrupted_message (Some (js "AAAAAAAA")) in
  handleServerMessage (3 # 5) m s
  = (set_nextStartTime 0 (set_sources [] s), [SourceStop 0])
  /\ scheduled (snd (handleServerMessage (3 # 5) m s)) = []
  /\ next_source (fst (handleServerMessage (3 # 5) m s)) = next_source s.
Proof.
  cbv zeta.
  apply (interrupted_message_discards_audio
           (fst (run playing_session
                   (deliver [(1 # 2, audio_message (js "AAAAAAAA"))%Q])))
           (3 # 5) (interrupted_message (Some (js "AAAAAAAA")))
           (js "AAAAAAAA"));
    reflexivity.
Defined.

(** C3, on the code: [stop()] has no guard.  On a started session two
    calls in succession run the clean-up twice and call the disconnect
    callback twice. *)
Theorem stop_twice_disconnects_twice :
  snd (run playing_session [CallStop; CallStop])
  = [Cleanup; Disconnect; Cleanup; Disconnect]
  /\ count_disconnects (snd (run playing_session [CallStop; CallStop])) = 2%nat.
Proof. split; reflexivity. Qed.

(** The capture callback does read [active]. *)
Lemma onaudioprocess_inactive (s : InterviewSession) (inputData : list float) :
  active s = false -> step s (AudioProcess inputData) = (s, []).
Proof.
  intro H. cbn [step]. unfold onaudioprocess. rewrite H.
  now destruct (processor s).
Qed.

(** [stop()] does not keep a later audio message from being scheduled. *)
Lemma message_after_stop (s : InterviewSession) (now : Q)
    (m : LiveServerMessage) (data : jsstring) (b : AudioBuffer) :
  outputAudioContext s = true -> message_interrupted m = false ->
  message_audio m = Some data -> data <> [] -> decode_segment data = Ok b ->
  exists t,
    snd (run s [CallStop; OnMessage now m])
    = snd (stop s) ++ [SourceStart (next_source s) t b].
Proof.
  intros Hc Hi Ha Hne Hd. cbn [run step]. unfold stop at 1.
  rewrite (handleServerMessage_audio now m _ data b); try assumption.
  eexists. cbn [snd]. rewrite app_nil_r. reflexivity.
Qed.

(** C9, on the code: [handleServerMessage] does not read [active].
    After [stop()] a capture frame does nothing, but an audio message is
    still decoded and scheduled. *)
Theorem message_after_stop_is_scheduled :
  active (fst (run playing_session [CallStop])) = false
  /\ snd (run playing_session
            [CallStop; AudioProcess [Fin (1 # 2)];
             OnMessage 3 (audio_message (js "AAAAAAAA"))])
     = [Cleanup; Disconnect;
        SourceStart 0 3
          (mkAudioBuffer 1 3 24000
             [[Fin (0 # 32768); Fin (0 # 32768); Fin (0 # 32768)]])].
Proof. split; reflexivity. Qed.

(** C4 as stated fails: a response without [technicalSkills] is returned
    as the profile. *)
Lemma analyzeCV_returns_incomplete_profile :
  let generateContent := fun _ : requestContents =>
    Ok (mkResponse (Some (quoted
      "{'candidateName': 'Dana', 'summary': 'backend engineer', 'topics': ['APIs', 'databases']}"))) in
  exists v,
    analyzeCV generateContent (TextInput (js "CV of Dana")) = Ok v
    /\ field "technicalSkills" v = None
    /\ is_CVAnalysis v = false.
Proof.
  eexists. split; [reflexivity|]. split; reflexivity.
Qed.

(** A response without text is read as the empty object. *)
Example analyzeCV_empty_response :
  analyzeCV (fun _ => Ok (mkResponse None)) (TextInput (js "CV of Dana"))
  = Ok (JSON.Object []).
Proof. reflexivity. Qed.

(** C4, as amended: [analyzeCV] returns a value exactly when the hosted
    model answers and the text of the answer (or the text of the empty
    object, when there is none) is valid JSON, and it returns the parsed
    value as it is, whatever its fields; every failure is the one error
    "Failed to analyze CV content.". *)
Theorem analyzeCV_result
    (generateContent : requestContents -> result GenerateContentResponse)
    (input : CVInput) :
  (forall v,
     analyzeCV generateContent input = Ok v
     <-> exists response,
           generateContent (request_contents input) = Ok response
           /\ JSON.parse (text_or_empty_object response) = Ok v)
  /\ (forall e,
        analyzeCV generateContent input = Throw e ->
        e = Error "Failed to analyze CV content.").
Proof.
  unfold analyzeCV.
  destruct (generateContent (request_contents input)) as [response | e0];
    cbn [bind].
  - destruct (JSON.parse (text_or_empty_object response)) as [v0 | e0] eqn:Hp.
    + split; [|discriminate].
      intro v. split.
      * intros [= <-]. now exists response.
      * intros (r & [= <-] & H). congruence.
    + split; [|now intros e [= <-]].
      intro v. split; [discriminate|].
      intros (r & [= <-] & H). congruence.
  - split; [|now intros e [= <-]].
    intro v. split; [discriminate|]. intros (r & H & _). discriminate.
Qed.

(** ** More on the codec *)

Lemma length_encode_groups (l : list N) :
  length (Base64.encode_groups l) = (4 * ((length l + 2) / 3))%nat.
Proof.
  induction l as [| a | a b | a b c r IH] using list_ind3; try reflexivity.
  cbn [Base64.encode_groups length]. rewrite IH.
  replace (S (S (S (length r))) + 2)%nat with (length r + 2 + 1 * 3)%nat by lia.
  rewrite Nat.div_add by discriminate. lia.
Qed.

Lemma encode_groups_alphabet (l : list N) :
  Forall (fun v => (v < 64)%N) (enc_sextets l) ->
  Forall (fun c => Base64.b64val c <> None \/ c = Base64.pad)
    (Base64.encode_groups l).
Proof.
  intro H. rewrite encode_groups_split. apply List.Forall_app. split.
  - apply List.Forall_forall. intros c Hc. apply in_map_iff in Hc.
    destruct Hc as (v & <- & Hv). left.
    rewrite List.Forall_forall in H. rewrite b64val_b64char by auto.
    discriminate.
  - clear. induction l as [| a | a b | a b c r IH] using list_ind3;
      cbn [enc_padding]; auto;
      repeat (apply List.Forall_cons; [right; reflexivity|]);
      apply List.Forall_nil.
Qed.

(** X1: [encodeBase64] always returns a text; for [n] bytes it has
    [4 * ceil(n / 3)] characters, each of the base64 alphabet or the
    padding. *)
Theorem encodeBase64_shape (bytes : list byte) :
  exists text,
    encodeBase64 bytes = Ok text
    /\ length text = (4 * ((length bytes + 2) / 3))%nat
    /\ Forall (fun c => Base64.b64val c <> None \/ c = Base64.pad) text.
Proof.
  eexists. split; [apply encodeBase64_ok|]. split.
  - now rewrite length_encode_groups, length_map.
  - apply encode_groups_alphabet, enc_sextets_bounded.
    apply List.Forall_forall. intros c Hc. apply in_map_iff in Hc.
    destruct Hc as (b & <- & _). pose proof (Byte.to_N_bounded b). lia.
Qed.

Lemma int16_of_bytes_range (lo hi : byte) :
  -32768 <= int16_of_bytes lo hi <= 32767.
Proof.
  unfold int16_of_bytes.
  pose proof (Byte.to_N_bounded lo). pose proof (Byte.to_N_bounded hi).
  match goal with |- context [?c <=? ?u] => destruct (Z.leb_spec c u) end; lia.
Qed.

Lemma int16_pairs_range (data : list byte) :
  Forall (fun v => -32768 <= v <= 32767) (int16_pairs data).
Proof.
  assert (H : forall d : list byte,
             Forall (fun v => -32768 <= v <= 32767) (int16_pairs d)
             /\ forall b, Forall (fun v => -32768 <= v <= 32767)
                            (int16_pairs (b :: d))).
  { induction d as [|x d [IH1 IH2]].
    - split; [constructor | intro b; constructor].
    - split; [apply IH2|]. intro b. cbn [int16_pairs].
      constructor; [apply int16_of_bytes_range | apply IH1]. }
  apply H.
Qed.

(** What a successful [decodeAudioData] was given. *)
Lemma decodeAudioData_ok_inv (data : list byte) (rate : Z) (nc : nat)
    (b : AudioBuffer) :
  decodeAudioData data rate nc = Ok b ->
  Nat.even (length data) = true /\ (1 <= nc <= 32)%nat /\ 8000 <= rate <= 96000.
Proof.
  unfold decodeAudioData, Int16Array_of_buffer.
  destruct (Nat.even (length data)); [|discriminate]. cbn [bind].
  unfold createBuffer.
  match goal with |- context [if ?c then _ else _] => destruct c eqn:E end;
    [|discriminate].
  intros _. rewrite !andb_true_iff, !Nat.leb_le, !Z.leb_le in E. lia.
Qed.

Lemma decodeAudioData_ok_form (data : list byte) (rate : Z) (nc : nat)
    (b : AudioBuffer) :
  decodeAudioData data rate nc = Ok b ->
  Z.of_nat (length data) < 4294967296 ->
  let frames := (Nat.div2 (length data) / nc)%nat in
  (1 <= frames)%nat
  /\ b = mkAudioBuffer nc frames rate
           (List.map
              (fun c =>
                 List.map (fun i => sample_at (int16_pairs data) (i * nc + c))
                   (seq 0 frames))
              (seq 0 nc)).
Proof.
  intros Hok Hlen frames.
  destruct (decodeAudioData_ok_inv _ _ _ _ Hok) as (Heven & Hnc & Hrate).
  assert (Hdiv : (Nat.div2 (length data) <= length data)%nat).
  { rewrite Nat.div2_div. apply Nat.Div0.div_le_upper_bound. lia. }
  assert (Hle : (frames <= Nat.div2 (length data))%nat).
  { unfold frames. apply Nat.Div0.div_le_upper_bound.
    rewrite <- (Nat.mul_1_l (Nat.div2 (length data))) at 1.
    apply Nat.mul_le_mono_r. lia. }
  destruct (Nat.eq_dec frames 0%nat) as [H0 | H0].
  { rewrite decodeAudioData_no_frame in Hok by assumption. discriminate. }
  split; [lia|].
  rewrite decodeAudioData_even in Hok; try assumption; fold frames; try lia.
  now injection Hok.
Qed.

Lemma sample_at_bounded (l : list Z) (k : nat) :
  Forall (fun v => -32768 <= v <= 32767) l -> (k < length l)%nat ->
  exists q, sample_at l k = Fin q /\ (-1 <= q < 1)%Q.
Proof.
  intros Hl Hk. unfold sample_at.
  destruct (l !! k) as [v|] eqn:E.
  2:{ apply lookup_ge_None in E. lia. }
  rewrite Forall_lookup in Hl. specialize (Hl _ _ E).
  exists (inject_Z v / 32768)%Q. split; [reflexivity|].
  unfold Qdiv. change (/ 32768)%Q with (1 # 32768)%Q.
  assert (H1 : (inject_Z (-32768) <= inject_Z v)%Q) by (rewrite <- Zle_Qle; lia).
  assert (H2 : (inject_Z v <= inject_Z 32767)%Q) by (rewrite <- Zle_Qle; lia).
  change (inject_Z (-32768)) with (-32768 # 1)%Q in H1.
  change (inject_Z 32767) with (32767 # 1)%Q in H2.
  split; lra.
Qed.

(** X2: every sample of a decoded buffer is a number [s] with
    [-1 <= s < 1]. *)
Theorem decodeAudioData_samples_in_range (data : list byte) (rate : Z)
    (nc : nat) (b : AudioBuffer) :
  decodeAudioData data rate nc = Ok b ->
  Z.of_nat (length data) < 4294967296 ->
  Forall (Forall (fun x => exists q, x = Fin q /\ (-1 <= q < 1)%Q)) (channels b).
Proof.
  intros Hok Hlen.
  destruct (decodeAudioData_ok_inv _ _ _ _ Hok) as (Heven & Hnc & Hrate).
  destruct (decodeAudioData_ok_form _ _ _ _ Hok Hlen) as [Hf ->].
  cbn [channels]. apply List.Forall_forall. intros ch Hch.
  apply in_map_iff in Hch. destruct Hch as (c & <- & Hc). apply in_seq in Hc.
  apply List.Forall_forall. intros x Hx.
  apply in_map_iff in Hx. destruct Hx as (i & <- & Hi). apply in_seq in Hi.
  apply sample_at_bounded; [apply int16_pairs_range|].
  rewrite length_int16_pairs.
  pose proof (Nat.Div0.mul_div_le (Nat.div2 (length data)) nc) as Hm. nia.
Qed.

(** X2 at a concrete input. *)
Lemma decodeAudioData_samples_in_range_witness :
  Forall (Forall (fun x => exists q, x = Fin q /\ (-1 <= q < 1)%Q))
    [[Fin (-32768 # 32768)]; [Fin (32767 # 32768)]].
Proof.
  apply (decodeAudioData_samples_in_range [x00; x80; xff; x7f] 24000 2
           (mkAudioBuffer 2 1 24000
              [[Fin (-32768 # 32768)]; [Fin (32767 # 32768)]])).
  - reflexivity.
  - reflexivity.
Defined.

(** X3: the shape of a decoded buffer: the rate and the channel count
    asked for, [length / (2 * numChannels)] frames in every channel, at
    least one, and the duration that goes with them. *)
Theorem decodeAudioData_buffer_shape (data : list byte) (rate : Z)
    (nc : nat) (b : AudioBuffer) :
  decodeAudioData data rate nc = Ok b ->
  Z.of_nat (length data) < 4294967296 ->
  numberOfChannels b = nc
  /\ sampleRate b = rate
  /\ buffer_length b = (length data / (2 * nc))%nat
  /\ (1 <= buffer_length b)%nat
  /\ length (channels b) = nc
  /\ Forall (fun ch => length ch = buffer_length b) (channels b)
  /\ duration b
     = (inject_Z (Z.of_nat (length data / (2 * nc))) / inject_Z rate)%Q.
Proof.
  intros Hok Hlen.
  destruct (decodeAudioData_ok_form _ _ _ _ Hok Hlen) as [Hf ->].
  assert (Hframes : (Nat.div2 (length data) / nc)%nat
                    = (length data / (2 * nc))%nat)
    by now rewrite Nat.div2_div, Nat.Div0.div_div.
  unfold duration.
  cbn [numberOfChannels sampleRate buffer_length channels].
  rewrite Hframes in *. repeat split; try lia.
  - now rewrite length_map, length_seq.
  - apply List.Forall_forall. intros ch Hch.
    apply in_map_iff in Hch. destruct Hch as (c & <- & _).
    now rewrite length_map, length_seq.
Qed.

(** X3 at a concrete input. *)
Lemma decodeAudioData_buffer_shape_witness :
  let b := mkAudioBuffer 2 1 24000
             [[Fin (-32768 # 32768)]; [Fin (32767 # 32768)]] in
  numberOfChannels b = 2%nat
  /\ sampleRate b = 24000
  /\ buffer_length b = (length [x00; x80; xff; x7f] / (2 * 2))%nat
  /\ (1 <= buffer_length b)%nat
  /\ length (channels b) = 2%nat
  /\ Forall (fun ch => length ch = buffer_length b) (channels b)
  /\ duration b
     = (inject_Z (Z.of_nat (length [x00; x80; xff; x7f] / (2 * 2)))
        / inject_Z 24000)%Q.
Proof.
  cbv zeta.
  apply (decodeAudioData_buffer_shape [x00; x80; xff; x7f] 24000 2).
  - reflexivity.
  - reflexivity.
Defined.

(** X4: [createPcmBlob] always returns a chunk; a frame of [n] samples
    gives [2 n] bytes, in [4 * ceil(2 n / 3)] characters. *)
Theorem createPcmBlob_sizes (data : list float) :
  exists text bytes,
    createPcmBlob data = Ok (mkBlob text (js "audio/pcm;rate=16000"))
    /\ decodeBase64 text = Ok bytes
    /\ length bytes = (2 * length data)%nat
    /\ length text = (4 * ((2 * length data + 2) / 3))%nat.
Proof.
  do 2 eexists. split; [apply createPcmBlob_ok|].
  split; [apply decodeBase64_encode_groups|].
  split.
  - now rewrite length_Uint8Array_of_Int16Array, length_map.
  - now rewrite length_encode_groups, length_map,
      length_Uint8Array_of_Int16Array, length_map.
Qed.

Lemma spec_clamp_Fin (q : Q) :
  exists s, spec_clamp (Fin q) = Fin s
            /\ ((q <= -1)%Q /\ s = (-1)%Q
                \/ (1 <= q)%Q /\ s = 1%Q
                \/ (-1 < q < 1)%Q /\ s = q).
Proof.
  unfold spec_clamp.
  destruct (Qle_bool q (-1)) eqn:E1.
  - apply Qle_bool_iff in E1. exists (-1)%Q. auto.
  - apply not_true_iff_false in E1. rewrite Qle_bool_iff in E1.
    apply Qnot_le_lt in E1.
    destruct (Qle_bool 1 q) eqn:E2.
    + apply Qle_bool_iff in E2. exists 1%Q. auto.
    + apply not_true_iff_false in E2. rewrite Qle_bool_iff in E2.
      apply Qnot_le_lt in E2. exists q. auto 6.
Qed.

Lemma scaled_monotone (s t : Q) :
  (s <= t)%Q ->
  (if Qltb s 0 then trunc (s * 32768) else trunc (s * 32767))
  <= (if Qltb t 0 then trunc (t * 32768) else trunc (t * 32767)).
Proof.
  intro H.
  destruct (Qltb s 0) eqn:Es, (Qltb t 0) eqn:Et;
    [apply Qltb_lt in Es | apply Qltb_lt in Es
     | apply Qltb_ge in Es | apply Qltb_ge in Es];
    [apply Qltb_lt in Et | apply Qltb_ge in Et
     | apply Qltb_lt in Et | apply Qltb_ge in Et].
  - rewrite !trunc_ceiling by lra. apply Qceiling_resp_le. lra.
  - rewrite trunc_ceiling, trunc_floor by lra.
    assert (Qceiling (s * 32768) <= Qceiling (inject_Z 0))
      by (apply Qceiling_resp_le; unfold inject_Z; lra).
    assert (Qfloor (inject_Z 0) <= Qfloor (t * 32767))
      by (apply Qfloor_resp_le; unfold inject_Z; lra).
    rewrite Qceiling_Z in *. rewrite Qfloor_Z in *. lia.
  - lra.
  - rewrite !trunc_floor by lra. apply Qfloor_resp_le. lra.
Qed.

(** X5: the conversion of a sample is monotone. *)
Theorem pcm_sample_monotone (p q : Q) :
  (p <= q)%Q ->
  ToInt16 (pcm_sample (Fin p)) <= ToInt16 (pcm_sample (Fin q)).
Proof.
  intro H.
  rewrite (proj1 (ToInt16_pcm_sample (Fin p))),
    (proj1 (ToInt16_pcm_sample (Fin q))).
  unfold spec_quantize.
  destruct (spec_clamp_Fin p) as (s & -> & Hs).
  destruct (spec_clamp_Fin q) as (t & -> & Ht).
  apply scaled_monotone.
  destruct Hs as [[? ->] | [[? ->] | [? ->]]],
           Ht as [[? ->] | [[? ->] | [? ->]]]; lra.
Qed.

(** X5 at a concrete input. *)
Lemma pcm_sample_monotone_witness :
  ToInt16 (pcm_sample (Fin (- (1 # 3)))) <= ToInt16 (pcm_sample (Fin (1 # 4))).
Proof.
  apply (pcm_sample_monotone (- (1 # 3)) (1 # 4)). discriminate.
Defined.

(** X6: a finite sample of magnitude 1 or more encodes to full
    scale. *)
Theorem pcm_sample_saturates (q : Q) :
  (1 <= Qabs q)%Q ->
  ToInt16 (pcm_sample (Fin q)) = if Qltb q 0 then -32768 else 32767.
Proof.
  intro H.
  rewrite (proj1 (ToInt16_pcm_sample (Fin q))). unfold spec_quantize.
  destruct (spec_clamp_Fin q) as (s & -> & Hs).
  destruct (Qltb q 0) eqn:E; [apply Qltb_lt in E | apply Qltb_ge in E].
  - rewrite Qabs_neg in H by lra.
    destruct Hs as [[? ->] | [[? ->] | [? ->]]]; try lra. reflexivity.
  - rewrite Qabs_pos in H by lra.
    destruct Hs as [[? ->] | [[? ->] | [? ->]]]; try lra. reflexivity.
Qed.

(** X6 at a concrete input. *)
Lemma pcm_sample_saturates_witness :
  ToInt16 (pcm_sample (Fin (- (7 # 2)))) = -32768.
Proof.
  apply (pcm_sample_saturates (- (7 # 2))). discriminate.
Defined.

Lemma Qfloor_unique (x : Q) (n : Z) :
  (inject_Z n <= x)%Q -> (x < inject_Z (n + 1))%Q -> Qfloor x = n.
Proof.
  intros H1 H2.
  assert (n <= Qfloor x)
    by (rewrite <- (Qfloor_Z n); now apply Qfloor_resp_le).
  assert (Qfloor x < n + 1).
  { rewrite Zlt_Qlt. eapply Qle_lt_trans; [apply Qfloor_le | exact H2]. }
  lia.
Qed.

(** Encoding what [decodeAudioData] made of a 16-bit integer. *)
Lemma spec_quantize_decoded (v : Z) :
  -32768 <= v <= 32767 ->
  spec_quantize (Fin (inject_Z v / 32768)) = if 0 <? v then v - 1 else v.
Proof.
  intro Hv. unfold spec_quantize.
  set (x := (inject_Z v / 32768)%Q).
  assert (Hx : x * 32768 == inject_Z v) by (unfold x; field).
  assert (Hlo : (inject_Z (-32768) <= inject_Z v)%Q) by (rewrite <- Zle_Qle; lia).
  assert (Hhi : (inject_Z v <= inject_Z 32767)%Q) by (rewrite <- Zle_Qle; lia).
  change (inject_Z (-32768)) with (-32768 # 1)%Q in Hlo.
  change (inject_Z 32767) with (32767 # 1)%Q in Hhi.
  destruct (spec_clamp_Fin x) as (s & -> & Hs).
  destruct Hs as [[Hc ->] | [[Hc ->] | [Hc ->]]]; [| lra |].
  - assert (v = -32768).
    { assert (Hq : (inject_Z v <= inject_Z (-32768))%Q)
        by (change (inject_Z (-32768)) with (-32768 # 1)%Q; lra).
      rewrite <- Zle_Qle in Hq. lia. }
    subst v. reflexivity.
  - destruct (Qltb x 0) eqn:E; [apply Qltb_lt in E | apply Qltb_ge in E].
    + rewrite trunc_ceiling by lra. rewrite (Qceiling_comp _ _ Hx), Qceiling_Z.
      assert (Hn : (inject_Z v < inject_Z 0)%Q)
        by (change (inject_Z 0) with 0%Q; lra).
      rewrite <- Zlt_Qlt in Hn.
      destruct (Z.ltb_spec 0 v); [lia | reflexivity].
    + rewrite trunc_floor by lra.
      assert (Hn : (inject_Z 0 <= inject_Z v)%Q)
        by (change (inject_Z 0) with 0%Q; lra).
      rewrite <- Zle_Qle in Hn.
      destruct (Z.ltb_spec 0 v) as [Hpos | Hz].
      * assert (Hp : (inject_Z 1 <= inject_Z v)%Q) by (rewrite <- Zle_Qle; lia).
        change (inject_Z 1) with 1%Q in Hp.
        apply Qfloor_unique.
        -- unfold Z.sub. rewrite inject_Z_plus, inject_Z_opp.
           change (inject_Z 1) with 1%Q. lra.
        -- replace (v - 1 + 1) with v by lia. lra.
      * assert (v = 0) by lia. subst v. reflexivity.
Qed.

(** X7: encoding what was decoded from 16-bit samples gives back the
    samples that are not positive and lowers every positive one by 1. *)
Theorem createPcmBlob_of_decoded (data : list byte) (rate : Z) (b : AudioBuffer) :
  decodeAudioData data rate 1 = Ok b ->
  Z.of_nat (length data) < 4294967296 ->
  exists ch text,
    channels b = [ch]
    /\ createPcmBlob ch = Ok (mkBlob text (js "audio/pcm;rate=16000"))
    /\ bind (decodeBase64 text) Int16Array_of_buffer
       = Ok (List.map (fun v => if 0 <? v then v - 1 else v) (int16_pairs data)).
Proof.
  intros Hok Hlen.
  destruct (decodeAudioData_ok_form _ _ _ _ Hok Hlen) as [Hf ->].
  rewrite Nat.div_1_r, <- length_int16_pairs.
  cbn [channels seq List.map]. rewrite samples_of_list.
  do 2 eexists. split; [reflexivity|]. split; [apply createPcmBlob_ok|].
  rewrite decodeBase64_encode_groups. cbn [bind].
  rewrite Int16Array_of_buffer_bytes by apply Forall_spec_quantize.
  f_equal. rewrite List.map_map. apply List.map_ext_in. intros v Hv.
  apply spec_quantize_decoded.
  pose proof (int16_pairs_range data) as Hr.
  rewrite List.Forall_forall in Hr. now apply Hr.
Qed.

(** X7 at a concrete input. *)
Lemma createPcmBlob_of_decoded_witness :
  exists ch text,
    channels (mkAudioBuffer 1 3 24000
                [[Fin (5 # 32768); Fin (0 # 32768); Fin (-2 # 32768)]]) = [ch]
    /\ createPcmBlob ch = Ok (mkBlob text (js "audio/pcm;rate=16000"))
    /\ bind (decodeBase64 text) Int16Array_of_buffer
       = Ok (List.map (fun v => if 0 <? v then v - 1 else v)
               (int16_pairs [x05; x00; x00; x00; xfe; xff])).
Proof.
  apply (createPcmBlob_of_decoded [x05; x00; x00; x00; xfe; xff] 24000).
  - reflexivity.
  - reflexivity.
Defined.

(** ** More on the scheduler and the session *)

Lemma run_cons s i rest :
  run s (i :: rest)
  = (fst (run (fst (step s i)) rest),
     snd (step s i) ++ snd (run (fst (step s i)) rest)).
Proof.
  cbn [run]. destruct (step s i) as [s1 e1]. cbn [fst snd].
  now destruct (run s1 rest).
Qed.

Lemma Math_max_Q_ge_l (a b : Q) : (a <= Math_max_Q a b)%Q.
Proof.
  unfold Math_max_Q. destruct (Qltb a b) eqn:E.
  - apply Qltb_lt in E. now apply Qlt_le_weak.
  - apply Qle_refl.
Qed.

Lemma Math_max_Q_ge_r (a b : Q) : (b <= Math_max_Q a b)%Q.
Proof.
  unfold Math_max_Q. destruct (Qltb a b) eqn:E.
  - apply Qle_refl.
  - now apply Qltb_ge in E.
Qed.

Lemma decodeAudioData_rate (data : list byte) (rate : Z) (nc : nat)
    (b : AudioBuffer) :
  decodeAudioData data rate nc = Ok b -> sampleRate b = rate.
Proof.
  unfold decodeAudioData.
  destruct (Int16Array_of_buffer data) as [ints | e]; [|discriminate].
  cbn [bind]. unfold createBuffer.
  match goal with |- context [if ?c then _ else _] => destruct c end;
    [|discriminate].
  cbn [bind sampleRate]. now intros [= <-].
Qed.

Lemma decode_segment_duration (data : jsstring) (b : AudioBuffer) :
  decode_segment data = Ok b -> (0 <= duration b)%Q.
Proof.
  unfold decode_segment. destruct (decodeBase64 data) as [bytes | e];
    [|discriminate].
  cbn [bind]. intro H. apply decodeAudioData_rate in H.
  unfold duration. rewrite H. apply Qle_shift_div_l; [reflexivity|].
  rewrite Qmult_0_l. replace 0%Q with (inject_Z 0) by reflexivity.
  rewrite <- Zle_Qle. lia.
Qed.

(** What one step that is not an interruption does to the schedule. *)
Lemma step_schedule (s : InterviewSession) (i : input) :
  not_interrupting i ->
  (scheduled (snd (step s i)) = []
   /\ (nextStartTime s <= nextStartTime (fst (step s i)))%Q)
  \/ (exists t d,
        scheduled (snd (step s i)) = [(t, d)]
        /\ (nextStartTime s <= t)%Q /\ (0 <= d)%Q
        /\ nextStartTime (fst (step s i)) = (t + d)%Q).
Proof.
  intro Hi. destruct i; cbn [step].
  - left. unfold start. destruct (active s); split; try reflexivity;
      apply Qle_refl.
  - left. unfold start_resume, stop.
    destruct (starting s); [|split; [reflexivity | apply Qle_refl]].
    destruct granted; cbn [fst snd]; (split; [|apply Qle_refl]).
    + reflexivity.
    + cbn [scheduled cleanup onDisconnect set_starting].
      destruct (onError s), (cleanup s), (onDisconnect s); reflexivity.
  - left. unfold stop. cbn [fst snd]. split; [|apply Qle_refl].
    destruct (cleanup s), (onDisconnect s); reflexivity.
  - left. unfold startAudioStreaming.
    destruct (inputAudioContext s); split; try reflexivity; apply Qle_refl.
  - cbn [not_interrupting] in Hi. unfold handleServerMessage. rewrite Hi.
    destruct (outputAudioContext s); cbn [negb];
      [|left; split; [reflexivity | apply Qle_refl]].
    destruct (message_audio message) as [[|c data]|];
      try (left; split; [reflexivity | apply Qle_refl]).
    pose proof (decode_segment_duration (c :: data)) as Hd.
    unfold decode_segment in Hd.
    match goal with |- context [match ?x with Ok _ => _ | Throw _ => _ end] =>
      destruct x as [b | e] end.
    + right. exists (Math_max_Q (nextStartTime s) currentTime), (duration b).
      cbn [fst snd scheduled]. repeat split; auto using Math_max_Q_ge_l.
    + left. cbn [fst snd]. split; [reflexivity | apply Math_max_Q_ge_l].
  - left. unfold stop. cbn [fst snd]. split; [|apply Qle_refl].
    destruct (cleanup s), (onDisconnect s); reflexivity.
  - left. unfold stop. cbn [fst snd scheduled]. split; [|apply Qle_refl].
    destruct (onError s), (cleanup s), (onDisconnect s); reflexivity.
  - left. unfold onaudioprocess.
    destruct (processor s); [|split; [reflexivity | apply Qle_refl]].
    destruct (active s); cbn [negb fst snd];
      [|split; [reflexivity | apply Qle_refl]].
    split; [|apply Qle_refl].
    destruct (onVolumeChange s), (createPcmBlob inputData); reflexivity.
  - left. unfold onended. cbn [fst snd]. split; [reflexivity | apply Qle_refl].
Qed.

(** X8: without an interruption [nextStartTime] never decreases. *)
Theorem nextStartTime_never_decreases (s : InterviewSession)
    (inputs : list input) :
  Forall not_interrupting inputs ->
  (nextStartTime s <= nextStartTime (fst (run s inputs)))%Q.
Proof.
  revert s. induction inputs as [|i rest IH]; intros s H.
  - apply Qle_refl.
  - inversion_clear H as [|? ? Hi Hrest]. rewrite run_cons. cbn [fst].
    eapply Qle_trans; [|apply IH, Hrest].
    destruct (step_schedule s i Hi) as [[_ Hn] | (t & d & _ & Ht & Hd & ->)].
    + exact Hn.
    + lra.
Qed.

(** X8 at a concrete input. *)
Lemma nextStartTime_never_decreases_witness :
  (nextStartTime playing_session
   <= nextStartTime
        (fst (run playing_session
                [OnMessage (1 # 2) (audio_message (js "AAAAAAAA"));
                 Ended 0; CallStop;
                 OnMessage (1 # 4) (audio_message (js "AAAA"))])))%Q.
Proof.
  apply (nextStartTime_never_decreases playing_session).
  repeat constructor.
Defined.

(** X9: without an interruption no segment starts before the one
    scheduled ahead of it ends, whatever the clock readings. *)
Theorem segments_never_overlap (s : InterviewSession) (inputs : list input) :
  Forall not_interrupting inputs ->
  no_overlap (scheduled (snd (run s inputs)))
  /\ match scheduled (snd (run s inputs)) with
     | (t, _) :: _ => (nextStartTime s <= t)%Q
     | [] => True
     end.
Proof.
  revert s. induction inputs as [|i rest IH]; intros s H; [cbn; auto|].
  inversion_clear H as [|? ? Hi Hrest]. rewrite run_cons. cbn [snd].
  rewrite scheduled_app.
  destruct (IH (fst (step s i)) Hrest) as [IH1 IH2].
  destruct (step_schedule s i Hi) as [[-> Hn] | (t & d & -> & Ht & Hd & Hn)];
    cbn [app].
  - split; [assumption|].
    destruct (scheduled _) as [|[t d] r]; [trivial|].
    eapply Qle_trans; eassumption.
  - cbn [no_overlap]. split; [|assumption]. split; [|assumption].
    destruct (scheduled _) as [|[t' d'] r]; [trivial|]. now rewrite <- Hn.
Qed.

(** X9 at a concrete input. *)
Lemma segments_never_overlap_witness :
  let evs :=
    snd (run playing_session
           [OnMessage (1 # 2) (audio_message (js "AAAAAAAA"));
            OnMessage 2 (audio_message (js "AAAAAAAA"));
            OnMessage (1 # 4) (audio_message (js "AAAAAAAA"))]) in
  no_overlap (scheduled evs)
  /\ match scheduled evs with
     | (t, _) :: _ => (nextStartTime playing_session <= t)%Q
     | [] => True
     end.
Proof.
  cbv zeta. apply (segments_never_overlap playing_session).
  repeat constructor.
Defined.

(** X10: a scheduled segment starts neither before the clock
    reading nor before the pending [nextStartTime]; [nextStartTime] is
    then its end, and its source is in the active set. *)
Theorem segment_never_starts_in_the_past (s : InterviewSession) (now : Q)
    (m : LiveServerMessage) (source : nat) (t : Q) (b : AudioBuffer) :
  In (SourceStart source t b) (snd (handleServerMessage now m s)) ->
  (now <= t)%Q /\ (nextStartTime s <= t)%Q
  /\ nextStartTime (fst (handleServerMessage now m s)) = (t + duration b)%Q
  /\ In source (sources (fst (handleServerMessage now m s))).
Proof.
  unfold handleServerMessage.
  destruct (outputAudioContext s); cbn [negb]; [|intros []].
  destruct (message_interrupted m).
  { cbn [snd]. intro H. apply in_map_iff in H. now destruct H as (x & [=] & _). }
  destruct (message_audio m) as [[|c data]|]; try (intros []).
  match goal with |- context [match ?x with Ok _ => _ | Throw _ => _ end] =>
    destruct x as [b' | e] end; cbn [fst snd]; intros [H | []];
    [|discriminate].
  injection H as <- <- <-.
  cbn [nextStartTime sources set_nextStartTime set_sources set_next_source
       next_source].
  repeat split; auto using Math_max_Q_ge_l, Math_max_Q_ge_r.
  apply in_or_app. right. now left.
Qed.

(** X10 at a concrete input. *)
Lemma segment_never_starts_in_the_past_witness :
  let r := handleServerMessage 2 (audio_message (js "AAAAAAAA")) playing_session in
  let b := mkAudioBuffer 1 3 24000
             [[Fin (0 # 32768); Fin (0 # 32768); Fin (0 # 32768)]] in
  (2 <= 2)%Q /\ (nextStartTime playing_session <= 2)%Q
  /\ nextStartTime (fst r) = (2 + duration b)%Q
  /\ In 0%nat (sources (fst r)).
Proof.
  cbv zeta.
  apply (segment_never_starts_in_the_past playing_session 2
           (audio_message (js "AAAAAAAA")) 0 2).
  left. reflexivity.
Defined.

Lemma stopped_app e1 e2 : stopped (e1 ++ e2) = stopped e1 ++ stopped e2.
Proof.
  induction e1 as [|e e1 IH]; [reflexivity|].
  destruct e; cbn [app stopped]; now rewrite ?IH.
Qed.

Lemma stopped_stops l : stopped (List.map SourceStop l) = l.
Proof. induction l as [|x l IH]; [reflexivity|]. cbn. now rewrite IH. Qed.

(** What one step does to the active set. *)
Lemma step_sources (s : InterviewSession) (i : input) :
  sources_fresh s ->
  sources_fresh (fst (step s i))
  /\ (next_source s <= next_source (fst (step s i)))%nat
  /\ (forall x, In x (sources (fst (step s i))) ->
                In x (sources s) \/ (next_source s <= x)%nat)
  /\ (stopped (snd (step s i)) = []
      \/ stopped (snd (step s i)) = sources s
         /\ sources (fst (step s i)) = []).
Proof.
  intros [Hnd Hlt].
  assert (Hsame : forall s1 evs,
             sources s1 = sources s -> next_source s1 = next_source s ->
             stopped evs = [] ->
             sources_fresh (fst (s1, evs))
             /\ (next_source s <= next_source (fst (s1, evs)))%nat
             /\ (forall x, In x (sources (fst (s1, evs))) ->
                           In x (sources s) \/ (next_source s <= x)%nat)
             /\ (stopped (snd (s1, evs)) = []
                 \/ stopped (snd (s1, evs)) = sources s
                    /\ sources (fst (s1, evs)) = [])).
  { intros s1 evs Hs Hn He. cbn [fst snd]. unfold sources_fresh.
    rewrite Hs, Hn. repeat split; auto. }
  destruct i; cbn [step].
  - unfold start. destruct (active s); apply Hsame; reflexivity.
  - unfold start_resume, stop. destruct (starting s); [|now apply Hsame].
    destruct granted; apply Hsame; try reflexivity.
    cbn [stopped cleanup onDisconnect set_starting].
    destruct (onError s), (cleanup s), (onDisconnect s); reflexivity.
  - unfold stop. apply Hsame; try reflexivity.
    destruct (cleanup s), (onDisconnect s); reflexivity.
  - unfold startAudioStreaming.
    destruct (inputAudioContext s); apply Hsame; reflexivity.
  - unfold handleServerMessage.
    destruct (outputAudioContext s); cbn [negb]; [|now apply Hsame].
    destruct (message_interrupted message).
    { cbn [fst snd sources next_source set_nextStartTime set_sources].
      unfold sources_fresh. cbn [sources next_source set_nextStartTime set_sources].
      rewrite stopped_stops. repeat split; auto using List.NoDup_nil.
      intros x []. }
    destruct (message_audio message) as [[|c data]|]; try now apply Hsame.
    match goal with |- context [match ?x with Ok _ => _ | Throw _ => _ end] =>
      destruct x as [b | e] end; [|now apply Hsame].
    cbn [fst snd stopped]. unfold sources_fresh.
    cbn [sources next_source set_nextStartTime set_sources set_next_source].
    repeat split.
    + apply List.NoDup_app; auto.
      * repeat constructor. intros [].
      * intros x Hx [<- | []]. rewrite List.Forall_forall in Hlt.
        specialize (Hlt _ Hx). lia.
    + apply List.Forall_app. split.
      * eapply List.Forall_impl; [|exact Hlt]. cbn. intros; lia.
      * repeat constructor.
    + lia.
    + intros x Hx. apply in_app_or in Hx. destruct Hx as [Hx | [<- | []]]; auto.
    + now left.
  - unfold stop. apply Hsame; try reflexivity.
    destruct (cleanup s), (onDisconnect s); reflexivity.
  - unfold stop. apply Hsame; try reflexivity. cbn [stopped].
    destruct (onError s), (cleanup s), (onDisconnect s); reflexivity.
  - unfold onaudioprocess. destruct (processor s); [|now apply Hsame].
    destruct (active s); cbn [negb]; apply Hsame; try reflexivity.
    destruct (onVolumeChange s), (createPcmBlob inputData); reflexivity.
  - unfold onended. cbn [fst snd stopped]. unfold sources_fresh.
    cbn [sources next_source set_sources]. repeat split; auto.
    + now apply List.NoDup_filter.
    + rewrite List.Forall_forall in *. intros x Hx.
      apply filter_In in Hx. apply Hlt, Hx.
    + intros x Hx. apply filter_In in Hx. left. apply Hx.
Qed.

Lemma run_stops (inputs : list input) : forall s,
  sources_fresh s ->
  List.NoDup (stopped (snd (run s inputs)))
  /\ forall x, In x (stopped (snd (run s inputs))) ->
               In x (sources s) \/ (next_source s <= x)%nat.
Proof.
  induction inputs as [|i rest IH]; intros s Hs.
  { cbn. split; [apply List.NoDup_nil | intros x []]. }
  rewrite run_cons. cbn [snd]. rewrite stopped_app.
  destruct (step_sources s i Hs) as (Hs1 & Hn & Hsub & Hst).
  destruct (IH _ Hs1) as [IH1 IH2].
  destruct Hst as [-> | [-> Hnil]]; cbn [app].
  - split; [assumption|]. intros x Hx.
    destruct (IH2 x Hx) as [H | H]; [apply Hsub, H | right; lia].
  - destruct Hs as [Hnd Hlt]. split.
    + apply List.NoDup_app; auto.
      intros x Hx Hx'.
      destruct (IH2 x Hx') as [H | H].
      * rewrite Hnil in H. destruct H.
      * rewrite List.Forall_forall in Hlt. specialize (Hlt _ Hx). lia.
    + intros x Hx. apply in_app_or in Hx. destruct Hx as [Hx | Hx]; auto.
      destruct (IH2 x Hx) as [H | H].
      * rewrite Hnil in H. destruct H.
      * right. lia.
Qed.

(** X11: no source node is stopped twice. *)
Theorem no_source_stopped_twice (s : InterviewSession) (inputs : list input) :
  sources_fresh s -> List.NoDup (stopped (snd (run s inputs))).
Proof. intro H. now apply run_stops. Qed.

(** X11 at a concrete input. *)
Lemma no_source_stopped_twice_witness :
  List.NoDup
    (stopped
       (snd (run playing_session
               [OnMessage (1 # 2) (audio_message (js "AAAAAAAA"));
                OnMessage (1 # 2) (audio_message (js "AAAAAAAA"));
                OnMessage 1 (interrupted_message None);
                OnMessage 1 (audio_message (js "AAAAAAAA"));
                OnMessage 2 (interrupted_message None)]))).
Proof.
  apply (no_source_stopped_twice playing_session).
  split; [apply List.NoDup_nil | constructor].
Defined.

(** X12: before [start()] every platform event is ignored. *)
Theorem unstarted_session_ignores_events (s : InterviewSession)
    (inputs : list input) :
  inputAudioContext s = false -> outputAudioContext s = false ->
  processor s = false ->
  Forall platform_event inputs ->
  run s inputs = (s, []).
Proof.
  intros Hi Ho Hp H. induction H as [|i rest Hpe _ IH]; [reflexivity|].
  rewrite run_cons.
  assert (Hstep : step s i = (s, [])).
  { destruct i; try contradiction; cbn [step].
    - unfold startAudioStreaming. now rewrite Hi.
    - unfold handleServerMessage. now rewrite Ho.
    - now rewrite Hp. }
  rewrite Hstep. cbn [fst snd]. now rewrite IH.
Qed.

(** X12 at a concrete input. *)
Lemma unstarted_session_ignores_events_witness :
  run app_session
    [OnMessage 1 (audio_message (js "AAAAAAAA")); AudioProcess [Fin 1]; OnOpen;
     OnMessage 2 (interrupted_message None)]
  = (app_session, []).
Proof.
  apply (unstarted_session_ignores_events app_session);
    try reflexivity.
  repeat constructor.
Defined.

(** X13: a rejected microphone request is reported once and ends in
    [stop()], which has no clean-up closure to run: the two audio contexts
    [start()] made stay open. *)
Theorem denied_microphone_leaves_contexts_open (s : InterviewSession) :
  active s = false -> cleanup s = false ->
  let r := run s [CallStart; MicrophoneResult false] in
  snd r
  = ConsoleError "Failed to start interview:"
      :: (if onError s
          then [ErrorCallback "Failed to access microphone or connect to AI."]
          else [])
      ++ (if onDisconnect s then [Disconnect] else [])
  /\ active (fst r) = false
  /\ inputAudioContext (fst r) = true
  /\ outputAudioContext (fst r) = true
  /\ cleanup (fst r) = false.
Proof.
  intros Ha Hc. cbv zeta. cbn [run step]. unfold start. rewrite Ha.
  unfold start_resume, stop.
  cbn [starting set_starting set_contexts set_active cleanup onDisconnect
       onError fst snd active inputAudioContext outputAudioContext].
  rewrite Hc. destruct (onError s), (onDisconnect s); cbn [app]; repeat split.
Qed.

(** X13 at a concrete input. *)
Lemma denied_microphone_leaves_contexts_open_witness :
  let r := run app_session [CallStart; MicrophoneResult false] in
  snd r
  = [ConsoleError "Failed to start interview:";
     ErrorCallback "Failed to access microphone or connect to AI.";
     Disconnect]
  /\ active (fst r) = false
  /\ inputAudioContext (fst r) = true
  /\ outputAudioContext (fst r) = true
  /\ cleanup (fst r) = false.
Proof.
  cbv zeta.
  apply (denied_microphone_leaves_contexts_open app_session); reflexivity.
Defined.

(** X14: a [stop()] during the microphone prompt does not cancel
    [start()]: the connection is requested all the same, on a session that
    stays inactive and drops every capture frame. *)
Theorem stop_during_prompt_does_not_cancel (s : InterviewSession) :
  active s = false ->
  let r := run s [CallStart; CallStop; MicrophoneResult true] in
  snd r
  = (if cleanup s then [Cleanup] else [])
      ++ (if onDisconnect s then [Disconnect] else []) ++ [Connect]
  /\ active (fst r) = false
  /\ cleanup (fst r) = true
  /\ forall inputData, step (fst r) (AudioProcess inputData) = (fst r, []).
Proof.
  intros Ha. cbv zeta. cbn [run step]. unfold start. rewrite Ha.
  unfold stop, start_resume.
  cbn [starting set_starting set_contexts set_active set_cleanup cleanup
       onDisconnect fst snd active app].
  split; [destruct (cleanup s), (onDisconnect s); reflexivity|].
  repeat split.
  intro inputData. cbn [step processor set_cleanup set_starting set_active
                          set_contexts].
  destruct (processor s); [|reflexivity]. reflexivity.
Qed.

(** X14 at a concrete input. *)
Lemma stop_during_prompt_does_not_cancel_witness :
  let r := run app_session [CallStart; CallStop; MicrophoneResult true] in
  snd r = [Disconnect; Connect]
  /\ active (fst r) = false
  /\ cleanup (fst r) = true
  /\ forall inputData, step (fst r) (AudioProcess inputData) = (fst r, []).
Proof.
  cbv zeta.
  apply (stop_during_prompt_does_not_cancel app_session). reflexivity.
Defined.

(** X15: on an active session every capture frame is sent as one
    chunk holding the 16-bit encodings of its samples; nothing is thrown. *)
Theorem capture_frame_sends_one_chunk (s : InterviewSession)
    (inputData : list float) :
  processor s = true -> active s = true ->
  exists text,
    step s (AudioProcess inputData)
    = (s,
       (if onVolumeChange s
        then [VolumeChange
                (fdiv (sum_of_squares inputData (Fin 0))
                   (Fin (inject_Z (Z.of_nat (length inputData)))))]
        else [])
         ++ [SendRealtimeInput (mkBlob text (js "audio/pcm;rate=16000"))])
    /\ bind (decodeBase64 text) Int16Array_of_buffer
       = Ok (List.map spec_quantize inputData).
Proof.
  intros Hp Ha. eexists. split.
  - cbn [step]. rewrite Hp. unfold onaudioprocess. rewrite Ha. cbn [negb].
    rewrite createPcmBlob_ok. reflexivity.
  - rewrite decodeBase64_encode_groups. cbn [bind].
    apply Int16Array_of_buffer_bytes, Forall_spec_quantize.
Qed.

(** X15 at a concrete input. *)
Lemma capture_frame_sends_one_chunk_witness :
  exists text,
    step playing_session (AudioProcess [Fin (1 # 2); Fin (-1)])
    = (playing_session,
       (if onVolumeChange playing_session
        then [VolumeChange
                (fdiv (sum_of_squares [Fin (1 # 2); Fin (-1)] (Fin 0))
                   (Fin (inject_Z (Z.of_nat (length [Fin (1 # 2); Fin (-1)])))))]
        else [])
         ++ [SendRealtimeInput (mkBlob text (js "audio/pcm;rate=16000"))])
    /\ bind (decodeBase64 text) Int16Array_of_buffer
       = Ok (List.map spec_quantize [Fin (1 # 2); Fin (-1)]).
Proof.
  apply (capture_frame_sends_one_chunk playing_session); reflexivity.
Defined.

Lemma sum_of_squares_bounded (samples : list Q) : forall a : Q,
  Forall (fun p => (-1 <= p <= 1)%Q) samples ->
  exists t, sum_of_squares (List.map Fin samples) (Fin a) = Fin t
            /\ (a <= t <= a + inject_Z (Z.of_nat (length samples)))%Q.
Proof.
  induction samples as [|p l IH]; intros a H.
  - exists a. split; [reflexivity|].
    change (inject_Z (Z.of_nat (length (@nil Q)))) with 0%Q. lra.
  - inversion_clear H as [|? ? Hp Hl].
    unfold sum_of_squares in *. cbn [List.map fold_left fadd fmul].
    destruct (IH (a + p * p)%Q Hl) as (t & -> & Ht1 & Ht2).
    exists t. split; [reflexivity|].
    assert (Hsq : (0 <= p * p <= 1)%Q).
    { destruct Hp as [Hp1 Hp2].
      assert (H1 : (0 <= (1 - p) * (1 + p))%Q)
        by (apply Qmult_le_0_compat; lra).
      assert (H2 : (1 - p) * (1 + p) == 1 - p * p) by ring.
      assert (H3 : (0 <= p * p)%Q).
      { destruct (Qlt_le_dec p 0) as [Hneg | Hpos].
        - assert (H4 : (0 <= (- p) * (- p))%Q)
            by (apply Qmult_le_0_compat; lra).
          assert (H5 : (- p) * (- p) == p * p) by ring. lra.
        - now apply Qmult_le_0_compat. }
      lra. }
    cbn [length]. rewrite Nat2Z.inj_succ. unfold Z.succ.
    rewrite inject_Z_plus. change (inject_Z 1) with 1%Q. lra.
Qed.

(** X16: for a nonempty frame of samples in [-1, 1] the mean square
    under the root lies in [0, 1].  The running sum is taken exactly; the
    bounds are kept by its binary64 rounding, which is monotone and exact
    on the integers up to the frame length. *)
Theorem volume_radicand_in_unit_interval (s : InterviewSession)
    (samples : list Q) :
  processor s = true -> active s = true -> onVolumeChange s = true ->
  samples <> [] ->
  Forall (fun p => (-1 <= p <= 1)%Q) samples ->
  exists r,
    In (VolumeChange (Fin r))
      (snd (step s (AudioProcess (List.map Fin samples))))
    /\ (0 <= r <= 1)%Q.
Proof.
  intros Hp Ha Hv Hne Hin. cbn [step]. rewrite Hp.
  unfold onaudioprocess. rewrite Ha, Hv. cbn [negb snd app].
  fold (sum_of_squares (List.map Fin samples) (Fin 0)).
  destruct (sum_of_squares_bounded samples 0 Hin) as (t & -> & Ht1 & Ht2).
  rewrite length_map.
  assert (Hn : (0 < inject_Z (Z.of_nat (length samples)))%Q).
  { replace 0%Q with (inject_Z 0) by reflexivity. rewrite <- Zlt_Qlt.
    destruct samples; [contradiction | cbn [length]; lia]. }
  exists (t / inject_Z (Z.of_nat (length samples)))%Q. split.
  - left. f_equal. unfold fdiv.
    destruct (Qeq_bool (inject_Z (Z.of_nat (length samples))) 0) eqn:E;
      [|reflexivity].
    apply Qeq_bool_iff in E. rewrite E in Hn. discriminate.
  - split.
    + apply Qle_shift_div_l; [assumption | lra].
    + apply Qle_shift_div_r; [assumption | lra].
Qed.

(** X16 at a concrete input. *)
Lemma volume_radicand_in_unit_interval_witness :
  exists r,
    In (VolumeChange (Fin r))
      (snd (step playing_session
              (AudioProcess (List.map Fin [1 # 2; -1; 0]%Q))))
    /\ (0 <= r <= 1)%Q.
Proof.
  apply (volume_radicand_in_unit_interval playing_session [1 # 2; -1; 0]%Q);
    try reflexivity.
  - discriminate.
  - repeat constructor; discriminate.
Defined.

Lemma count_connects_app e1 e2 :
  count_connects (e1 ++ e2) = (count_connects e1 + count_connects e2)%nat.
Proof.
  unfold count_connects. now rewrite List.filter_app, length_app.
Qed.

(** What one step that does not stop the session does to the connection. *)
Lemma step_connects (s : InterviewSession) (i : input) :
  keeps_running i -> (starting s = true -> active s = true) ->
  (starting (fst (step s i)) = true -> active (fst (step s i)) = true)
  /\ (count_connects (snd (step s i)) = 0%nat
      /\ (active s = true -> starting s = false ->
          active (fst (step s i)) = true /\ starting (fst (step s i)) = false)
      \/ count_connects (snd (step s i)) = 1%nat
         /\ starting s = true
         /\ active (fst (step s i)) = true
         /\ starting (fst (step s i)) = false).
Proof.
  intros Hk Hs. destruct i; try contradiction; cbn [step].
  - unfold start. destruct (active s) eqn:Ha; cbn [fst snd].
    + split; [intros _; exact Ha|]. left. auto.
    + split; [reflexivity|]. left. split; [reflexivity|]. discriminate.
  - unfold start_resume, stop. destruct (starting s) eqn:Hst; cbn [fst snd].
    2:{ split; [congruence|]. left. auto. }
    destruct granted; cbn [fst snd starting active set_cleanup set_starting
                           set_active].
    + split; [discriminate|]. right. auto.
    + split; [discriminate|]. left. split; [|discriminate].
      unfold count_connects.
      cbn [cleanup onDisconnect set_starting].
      destruct (onError s), (cleanup s), (onDisconnect s); reflexivity.
  - unfold startAudioStreaming. destruct (inputAudioContext s); cbn [fst snd];
      (split; [exact Hs|]); left; auto.
  - unfold handleServerMessage.
    destruct (outputAudioContext s); cbn [negb fst snd];
      [|split; [exact Hs|]; left; auto].
    destruct (message_interrupted message); cbn [fst snd].
    { split; [exact Hs|]. left. split; [|auto].
      unfold count_connects. induction (sources s); auto. }
    destruct (message_audio message) as [[|c data]|];
      try (split; [exact Hs|]; left; auto).
    match goal with |- context [match ?x with Ok _ => _ | Throw _ => _ end] =>
      destruct x as [b | e] end; cbn [fst snd];
      (split; [exact Hs|]); left; auto.
  - unfold onaudioprocess. destruct (processor s); cbn [fst snd];
      [|split; [exact Hs|]; left; auto].
    destruct (active s) eqn:Ha; cbn [negb fst snd];
      (split; [rewrite ?Ha; auto|]); left.
    + split; [|rewrite Ha; auto].
      destruct (onVolumeChange s), (createPcmBlob inputData); reflexivity.
    + split; [reflexivity | discriminate].
  - unfold onended. cbn [fst snd]. split; [exact Hs|]. left. auto.
Qed.

Lemma run_connects (inputs : list input) : forall s,
  Forall keeps_running inputs -> (starting s = true -> active s = true) ->
  (count_connects (snd (run s inputs)) <= 1)%nat
  /\ (active s = true -> starting s = false ->
      count_connects (snd (run s inputs)) = 0%nat).
Proof.
  induction inputs as [|i rest IH]; intros s H Hs; [cbn; auto|].
  inversion_clear H as [|? ? Hk Hrest]. rewrite run_cons. cbn [snd].
  rewrite count_connects_app.
  destruct (step_connects s i Hk Hs) as [Hs1 Hc].
  destruct (IH _ Hrest Hs1) as [IH1 IH2].
  destruct Hc as [[-> Hkeep] | (-> & Hst & Ha1 & Hst1)].
  - split; [exact IH1|]. intros Ha Hns.
    destruct (Hkeep Ha Hns). now apply IH2.
  - rewrite (IH2 Ha1 Hst1). split; [lia | congruence].
Qed.

(** X17: a session that is not stopped requests at most one
    connection. *)
Theorem one_connection_per_session (s : InterviewSession)
    (inputs : list input) :
  starting s = false -> Forall keeps_running inputs ->
  (count_connects (snd (run s inputs)) <= 1)%nat.
Proof.
  intros Hs H. apply run_connects; [assumption | congruence].
Qed.

(** X17 at a concrete input. *)
Lemma one_connection_per_session_witness :
  (count_connects
     (snd (run app_session
             [CallStart; CallStart; MicrophoneResult true; OnOpen; CallStart;
              MicrophoneResult true; CallStart]))
   <= 1)%nat.
Proof.
  apply (one_connection_per_session app_session); [reflexivity|].
  repeat constructor.
Defined.

(** ** The analysis request and the instructions *)

(** X18: only the first 20000 code units of a text reach the model. *)
Theorem analyzeCV_reads_20000_code_units
    (generateContent : requestContents -> result GenerateContentResponse)
    (text : jsstring) :
  analyzeCV generateContent (TextInput text)
  = analyzeCV generateContent (TextInput (firstn (N.to_nat 20000) text)).
Proof.
  unfold analyzeCV, request_contents.
  now rewrite firstn_firstn, Nat.min_id.
Qed.

Lemma join_infix (separator t : jsstring) (l : list jsstring) :
  In t l -> infix_of t (join separator l).
Proof.
  induction l as [|x l IH]; intros H; [destruct H|].
  destruct H as [-> | H].
  - destruct l as [|y l].
    + exists [], []. cbn [join]. now rewrite app_nil_r.
    + exists [], (separator ++ join separator (y :: l)). reflexivity.
  - destruct l as [|y l]; [destruct H|].
    destruct (IH H) as (pre & post & E).
    exists (x ++ separator ++ pre), post.
    change (join separator (x :: y :: l))
      with (x ++ separator ++ join separator (y :: l)).
    rewrite E. now rewrite <- !app_assoc.
Qed.

(** X19: the instructions contain the name, the summary and every
    topic. *)
Theorem systemInstruction_mentions_profile (context : CVAnalysis) :
  infix_of (candidateName context) (systemInstruction context)
  /\ infix_of (summary context) (systemInstruction context)
  /\ forall t, In t (topics context) ->
               infix_of t (systemInstruction context).
Proof.
  unfold systemInstruction. split; [|split].
  - eexists _, _. reflexivity.
  - exists (instruction_head ++ candidateName context ++ instruction_summary).
    eexists. rewrite <- !app_assoc. reflexivity.
  - intros t Ht.
    destruct (join_infix (js ", ") t _ Ht) as (pre & post & ->).
    exists (instruction_head ++ candidateName context ++ instruction_summary
            ++ summary context ++ instruction_topics ++ pre).
    exists (post ++ instruction_rules).
    now rewrite <- !app_assoc.
Qed.

(** ** The application component *)

Lemma step_onDisconnect (s : InterviewSession) (i : input) :
  onDisconnect (fst (step s i)) = onDisconnect s.
Proof.
  destruct i; cbn [step].
  - unfold start. now destruct (active s).
  - unfold start_resume, stop. destruct (starting s); [|reflexivity].
    now destruct granted.
  - reflexivity.
  - unfold startAudioStreaming. now destruct (inputAudioContext s).
  - unfold handleServerMessage.
    destruct (outputAudioContext s); cbn [negb]; [|reflexivity].
    destruct (message_interrupted message); [reflexivity|].
    destruct (message_audio message) as [[|c data]|]; try reflexivity.
    match goal with |- context [match ?x with Ok _ => _ | Throw _ => _ end] =>
      destruct x end; reflexivity.
  - reflexivity.
  - reflexivity.
  - unfold onaudioprocess. destruct (processor s); [|reflexivity].
    now destruct (active s).
  - reflexivity.
Qed.

Lemma notify_stops (l : list nat) (a : App) :
  fold_left notify (List.map SourceStop l) a = a.
Proof. induction l as [|x l IH]; [reflexivity | exact IH]. Qed.

(** What the callbacks of one step do to the screen: either the session
    has stopped and the screen is COMPLETED, or the screen is as it was and
    an active session is still active. *)
Lemma burst_appState (s : InterviewSession) (i : input) (a : App) :
  onDisconnect s = true ->
  appState (fold_left notify (snd (step s i)) a) = COMPLETED
  /\ active (fst (step s i)) = false
  \/ appState (fold_left notify (snd (step s i)) a) = appState a
     /\ (active s = true -> active (fst (step s i)) = true).
Proof.
  intro Hd. destruct i; cbn [step].
  - right. unfold start. destruct (active s) eqn:Ha; cbn [fst snd]; auto.
  - unfold start_resume, stop. destruct (starting s); [|right; auto].
    destruct granted; cbn [fst snd]; [right; auto|].
    left. cbn [onDisconnect cleanup set_starting active set_active].
    rewrite Hd. destruct (onError s), (cleanup s); auto.
  - left. unfold stop. cbn [fst snd active set_active]. rewrite Hd.
    destruct (cleanup s); auto.
  - right. unfold startAudioStreaming.
    destruct (inputAudioContext s); cbn [fst snd]; auto.
  - right. unfold handleServerMessage.
    destruct (outputAudioContext s); cbn [negb fst snd]; [|auto].
    destruct (message_interrupted message); cbn [fst snd].
    { rewrite notify_stops. auto. }
    destruct (message_audio message) as [[|c data]|]; cbn [fst snd]; auto.
    match goal with |- context [match ?x with Ok _ => _ | Throw _ => _ end] =>
      destruct x end; cbn [fst snd]; auto.
  - left. unfold stop. cbn [fst snd active set_active]. rewrite Hd.
    destruct (cleanup s); auto.
  - left. unfold stop. cbn [fst snd active set_active]. rewrite Hd.
    destruct (onError s), (cleanup s); auto.
  - right. unfold onaudioprocess. destruct (processor s); [|auto].
    destruct (active s) eqn:Ha; cbn [negb fst snd]; rewrite ?Ha;
      (split; [|auto]); [|reflexivity].
    destruct (onVolumeChange s), (createPcmBlob inputData); reflexivity.
  - right. unfold onended. cbn [fst snd]. auto.
Qed.

Lemma session_input_wired (k : nat) (i : input) (w : World) :
  wired w -> wired (fst (session_input k i w)).
Proof.
  intro H. unfold session_input.
  destruct (heap w !! k) as [s|] eqn:E; [|exact H].
  destruct (step s i) as [s' evs] eqn:Es. cbn [fst]. unfold wired in *.
  cbn [heap]. apply Forall_insert; [exact H|].
  replace s' with (fst (step s i)) by now rewrite Es.
  rewrite step_onDisconnect.
  rewrite Forall_lookup in H. exact (H _ _ E).
Qed.

Lemma session_input_appState (k : nat) (i : input) (w : World) :
  wired w ->
  appState (component (fst (session_input k i w))) = COMPLETED
  \/ appState (component (fst (session_input k i w))) = appState (component w).
Proof.
  intro H. unfold session_input.
  destruct (heap w !! k) as [s|] eqn:E; [|now right].
  assert (Hd : onDisconnect s = true).
  { unfold wired in H. rewrite Forall_lookup in H. exact (H _ _ E). }
  pose proof (burst_appState s i (component w) Hd) as Hb.
  destruct (step s i) as [s' evs]. cbn [fst snd component] in *.
  destruct Hb as [[Hb _] | [Hb _]]; auto.
Qed.

Lemma ui_step_wired (w : World) (u : ui) : wired w -> wired (fst (ui_step w u)).
Proof.
  intro H. destruct u; cbn [ui_step fst heap]; try exact H.
  - unfold handleStartInterview. destruct (no_analysis (component w)); [exact H|].
    apply session_input_wired. unfold wired in *. cbn [heap].
    apply Forall_app. split; [exact H | repeat constructor].
  - unfold handleEndInterview. destruct (sessionRef (component w)) as [k|]; [|exact H].
    pose proof (session_input_wired k CallStop w H) as Hw.
    destruct (session_input k CallStop w) as [w' evs]. exact Hw.
Qed.

Lemma ui_step_not_error (w : World) (u : ui) :
  wired w -> appState (component w) <> ERROR ->
  appState (component (fst (ui_step w u))) <> ERROR.
Proof.
  intros Hw H. destruct u; cbn [ui_step fst component]; try exact H;
    try discriminate.
  - unfold handleCVSubmit. destruct cv as [text | mime data];
      [destruct (blank text)|]; cbn [fst]; try exact H; discriminate.
  - unfold handleCVSubmit. destruct (blank (cvText (component w))); cbn [fst];
      [exact H | discriminate].
  - destruct r; discriminate.
  - unfold handleStartInterview. destruct (no_analysis (component w)); [exact H|].
    match goal with |- appState (component (fst (session_input ?k ?i ?w0))) <> _ =>
      destruct (session_input_appState k i w0) as [E | E] end.
    + unfold wired in *. cbn [heap]. apply Forall_app.
      split; [exact Hw | repeat constructor].
    + rewrite E. discriminate.
    + rewrite E. discriminate.
  - unfold handleEndInterview. destruct (sessionRef (component w)) as [k|];
      [|discriminate].
    destruct (session_input k CallStop w) as [w' evs]. discriminate.
Qed.

Lemma world_step_invariant (w : World) (x : world_input) :
  wired w -> appState (component w) <> ERROR ->
  wired (fst (world_step w x))
  /\ appState (component (fst (world_step w x))) <> ERROR.
Proof.
  intros Hw H. destruct x as [u | k i]; cbn [world_step].
  - split; [now apply ui_step_wired | now apply ui_step_not_error].
  - split; [now apply session_input_wired|].
    destruct (session_input_appState k i w Hw) as [E | E]; rewrite E;
      [discriminate | exact H].
Qed.

(** X20: the application never rests in [ERROR]. *)
Theorem app_never_rests_in_error (xs : list world_input) :
  appState (component (world_run initial_world xs)) <> ERROR.
Proof.
  assert (H : forall w, wired w -> appState (component w) <> ERROR ->
                        appState (component (world_run w xs)) <> ERROR).
  { induction xs as [|x rest IH]; intros w Hw He; [exact He|].
    cbn [world_run]. destruct (world_step_invariant w x Hw He).
    now apply IH. }
  apply H; [constructor | discriminate].
Qed.

(** X21: a close or error event of a wired session moves the
    application to [COMPLETED], whatever it shows, and leaves the session
    inactive. *)
Theorem remote_close_completes (w : World) (k : nat) (s : InterviewSession)
    (i : input) :
  heap w !! k = Some s -> onDisconnect s = true ->
  i = OnClose \/ i = OnError ->
  appState (component (fst (session_input k i w))) = COMPLETED
  /\ option_map active (heap (fst (session_input k i w)) !! k) = Some false.
Proof.
  intros E Hd Hi. unfold session_input. rewrite E.
  destruct Hi as [-> | ->]; cbn [step]; unfold stop; cbn [fst snd component heap];
    rewrite Hd.
  - split.
    + destruct (cleanup s); reflexivity.
    + rewrite list_lookup_insert_eq by (eapply lookup_lt_Some; eassumption).
      reflexivity.
  - split.
    + destruct (onError s), (cleanup s); reflexivity.
    + rewrite list_lookup_insert_eq by (eapply lookup_lt_Some; eassumption).
      reflexivity.
Qed.

(** X21 at a concrete input. *)
Lemma remote_close_completes_witness :
  let w := fst (world_step
                  (fst (world_step
                          (fst (world_step initial_world
                                  (User (AnalysisSettled (Ok (JSON.Object []))))))
                          (User ClickStart)))
                  (User ClickReset)) in
  appState (component w) = IDLE
  /\ appState (component (fst (session_input 0 OnClose w))) = COMPLETED
  /\ option_map active (heap (fst (session_input 0 OnClose w)) !! 0%nat)
     = Some false.
Proof.
  cbv zeta. split; [reflexivity|].
  eapply (remote_close_completes _ 0 _ OnClose).
  - reflexivity.
  - reflexivity.
  - left. reflexivity.
Defined.

Lemma session_input_other (k k' : nat) (i : input) (w : World) :
  k <> k' -> heap (fst (session_input k' i w)) !! k = heap w !! k.
Proof.
  intro H. unfold session_input.
  destruct (heap w !! k') as [s|]; [|reflexivity].
  destruct (step s i) as [s' evs]. cbn [fst heap].
  now apply list_lookup_insert_ne.
Qed.

Lemma session_input_length (k : nat) (i : input) (w : World) :
  length (heap (fst (session_input k i w))) = length (heap w).
Proof.
  unfold session_input. destruct (heap w !! k) as [s|]; [|reflexivity].
  destruct (step s i) as [s' evs]. cbn [fst heap]. apply length_insert.
Qed.

Lemma session_input_sessionRef (k : nat) (i : input) (w : World) :
  sessionRef (component (fst (session_input k i w))) = sessionRef (component w).
Proof.
  unfold session_input. destruct (heap w !! k) as [s|]; [|reflexivity].
  destruct (step s i) as [s' evs]. cbn [fst component].
  generalize (component w). induction evs as [|e evs IH]; intro a; [reflexivity|].
  cbn [fold_left]. rewrite IH. now destruct e.
Qed.

(** What the user does leaves alone every session that is not the current
    one. *)
Lemma ui_step_other (w : World) (u : ui) (k : nat) :
  (k < length (heap w))%nat -> sessionRef (component w) <> Some k ->
  heap (fst (ui_step w u)) !! k = heap w !! k
  /\ (k < length (heap (fst (ui_step w u))))%nat
  /\ sessionRef (component (fst (ui_step w u))) <> Some k.
Proof.
  intros Hk Hr. destruct u; cbn [ui_step fst heap component]; auto.
  - unfold handleCVSubmit. destruct cv as [text | mime data];
      [destruct (blank text)|]; cbn [fst]; auto.
  - unfold handleCVSubmit. destruct (blank (cvText (component w))); cbn [fst]; auto.
  - destruct r; auto.
  - unfold handleStartInterview. destruct (no_analysis (component w)); [auto|].
    rewrite session_input_other, session_input_length, session_input_sessionRef
      by lia.
    cbn [heap component sessionRef set_sessionRef]. rewrite length_app.
    repeat split.
    + now apply lookup_app_l.
    + lia.
    + intros [= E]. lia.
  - unfold handleEndInterview. destruct (sessionRef (component w)) as [k'|] eqn:E;
      cbn [fst heap component];
      [|split; [reflexivity|]; split; [assumption|];
        cbn [sessionRef set_appState]; rewrite E; discriminate].
    pose proof (session_input_other k k' CallStop w) as Ho.
    pose proof (session_input_length k' CallStop w) as Hl.
    destruct (session_input k' CallStop w) as [w' evs]. cbn [fst heap component] in *.
    repeat split.
    + apply Ho. congruence.
    + lia.
    + discriminate.
Qed.

(** X22: nothing the user does touches a session that is not the
    current one. *)
Theorem abandoned_session_is_never_stopped (w : World) (us : list ui)
    (k : nat) :
  (k < length (heap w))%nat -> sessionRef (component w) <> Some k ->
  heap (ui_run w us) !! k = heap w !! k.
Proof.
  revert w. induction us as [|u rest IH]; intros w Hk Hr; [reflexivity|].
  cbn [ui_run]. destruct (ui_step_other w u k Hk Hr) as (E & Hk' & Hr').
  now rewrite IH.
Qed.

(** X22 at a concrete input. *)
Lemma abandoned_session_is_never_stopped_witness :
  let w := world_run initial_world
             [User (AnalysisSettled (Ok (JSON.Object [])));
              User ClickStart; Session 0 (MicrophoneResult true);
              Session 0 OnOpen; User ClickReset;
              User (AnalysisSettled (Ok (JSON.Object [])));
              User ClickStart] in
  let us := [ClickEnd; ClickReset; TypeText (js "cv"); ClickAnalyze;
             AnalysisSettled (Throw SyntaxError); ClickEnd] in
  option_map active (heap w !! 0%nat) = Some true
  /\ heap (ui_run w us) !! 0%nat = heap w !! 0%nat.
Proof.
  cbv zeta. split; [reflexivity|].
  apply abandoned_session_is_never_stopped.
  - cbn. lia.
  - discriminate.
Defined.

(** X23: an analysis that is false as a condition leads to [READY],
    where [handleStartInterview] does nothing. *)
Theorem falsy_analysis_is_a_dead_end (w : World) (v : JSON.value) :
  js_truthy v = false ->
  let w' := fst (ui_step w (AnalysisSettled (Ok v))) in
  appState (component w') = READY
  /\ ui_step w' ClickStart = (w', []).
Proof.
  intro H. cbv zeta. cbn [ui_step fst handleCVSubmit_settled].
  split; [reflexivity|].
  unfold handleStartInterview, no_analysis. cbn [component analysis set_appState
    set_analysis]. now rewrite H.
Qed.

(** X23 at a concrete input. *)
Lemma falsy_analysis_is_a_dead_end_witness :
  let w' := fst (ui_step initial_world
                   (AnalysisSettled
                      (analyzeCV (fun _ => Ok (mkResponse (Some (js "null"))))
                         (TextInput (js "CV"))))) in
  appState (component w') = READY
  /\ ui_step w' ClickStart = (w', []).
Proof.
  apply (falsy_analysis_is_a_dead_end initial_world JSON.Null). reflexivity.
Defined.

Lemma handleStartInterview_starts (w : World) :
  no_analysis (component w) = false ->
  handleStartInterview w
  = (mkWorld (set_sessionRef (Some (length (heap w)))
                (set_appState INTERVIEWING (component w)))
       (heap w ++ [fst (start app_session)]), []).
Proof.
  intro H. unfold handleStartInterview, session_input. rewrite H.
  cbn [heap component]. rewrite lookup_app_r, Nat.sub_diag by lia.
  cbn [lookup list_lookup step]. cbn [start app_session active fst snd fold_left].
  f_equal. f_equal.
  rewrite insert_app_r_alt, Nat.sub_diag by lia. reflexivity.
Qed.

Lemma session_input_live (k : nat) (i : input) (w : World) :
  wired w -> live_session_active w ->
  live_session_active (fst (session_input k i w)).
Proof.
  intros Hw Hl Hst.
  pose proof (session_input_sessionRef k i w) as Hr.
  unfold session_input in *.
  destruct (heap w !! k) as [s|] eqn:E; [|now apply Hl].
  assert (Hd : onDisconnect s = true).
  { unfold wired in Hw. rewrite Forall_lookup in Hw. exact (Hw _ _ E). }
  pose proof (burst_appState s i (component w) Hd) as Hb.
  destruct (step s i) as [s' evs] eqn:Es. cbn [fst snd component heap] in *.
  destruct Hb as [[Hb _] | [Hb Ha]]; [congruence|].
  rewrite Hb in Hst. destruct (Hl Hst) as (k0 & s0 & Hk0 & Hs0 & Ha0).
  exists k0. destruct (Nat.eq_dec k0 k) as [-> | Hne].
  - exists s'. rewrite Hr. split; [assumption|]. split.
    + apply list_lookup_insert_eq. eapply lookup_lt_Some; eassumption.
    + apply Ha. congruence.
  - exists s0. rewrite Hr. split; [assumption|]. split; [|assumption].
    now rewrite list_lookup_insert_ne by congruence.
Qed.

Lemma ui_step_live (w : World) (u : ui) :
  live_session_active w -> live_session_active (fst (ui_step w u)).
Proof.
  intros Hl. destruct u; cbn [ui_step fst].
  - exact Hl.
  - unfold handleCVSubmit, live_session_active.
    destruct cv as [text | mime data]; [destruct (blank text)|];
      cbn [fst component heap appState set_errorMsg set_appState]; try exact Hl;
      discriminate.
  - unfold handleCVSubmit, live_session_active.
    destruct (blank (cvText (component w)));
      cbn [fst component heap appState set_errorMsg set_appState]; try exact Hl;
      discriminate.
  - unfold live_session_active. destruct r; discriminate.
  - destruct (no_analysis (component w)) eqn:E.
    + unfold handleStartInterview. now rewrite E.
    + rewrite handleStartInterview_starts by assumption. cbn [fst].
      intros _. exists (length (heap w)), (fst (start app_session)).
      cbn [component heap sessionRef set_sessionRef]. split; [reflexivity|].
      split; [|reflexivity].
      rewrite lookup_app_r, Nat.sub_diag by lia. reflexivity.
  - unfold handleEndInterview, live_session_active.
    destruct (sessionRef (component w)) as [k|]; [|discriminate].
    destruct (session_input k CallStop w) as [w' evs]. discriminate.
  - unfold live_session_active. discriminate.
Qed.

(** X24: whenever the application shows [INTERVIEWING], the current
    session is an active one. *)
Theorem live_screen_has_an_active_session (xs : list world_input) :
  live_session_active (world_run initial_world xs).
Proof.
  assert (H : forall w, wired w -> live_session_active w ->
                        live_session_active (world_run w xs)).
  { induction xs as [|x rest IH]; intros w Hw Hl; [exact Hl|].
    cbn [world_run]. apply IH.
    - destruct x as [u | k i]; cbn [world_step];
        [now apply ui_step_wired | now apply session_input_wired].
    - destruct x as [u | k i]; cbn [world_step];
        [now apply ui_step_live | now apply session_input_live]. }
  apply H; [constructor | discriminate].
Qed.

(** ** The choice of a file *)

Lemma split_no_separator (separator : N) (s : jsstring) :
  Forall (fun c => c <> separator) s -> split separator s = [s].
Proof.
  induction 1 as [|c s Hc _ IH]; [reflexivity|].
  cbn [split]. apply N.eqb_neq in Hc. now rewrite Hc, IH.
Qed.

Lemma split_app (separator : N) (p r : jsstring) :
  Forall (fun c => c <> separator) p ->
  split separator (p ++ separator :: r) = p :: split separator r.
Proof.
  induction 1 as [|c p Hc _ IH]; cbn [app split].
  - now rewrite N.eqb_refl.
  - apply N.eqb_neq in Hc. now rewrite Hc, IH.
Qed.

(** X25: a file of type application/pdf is handed over as the base64
    text of its bytes, whatever its name. *)
Theorem processFile_pdf (file : File) :
  file_type file = js "application/pdf" ->
  exists data,
    processFile file = Selected (BinaryInput (js "application/pdf") data)
    /\ decodeBase64 data = Ok (file_bytes file).
Proof.
  intro H. exists (Base64.encode_groups (List.map Byte.to_N (file_bytes file))).
  split; [|apply decodeBase64_encode_groups].
  unfold processFile, data_url. rewrite H.
  replace (JSON.jsstring_eqb (js "application/pdf") (js "application/pdf"))
    with true by reflexivity.
  change (js "data:" ++ js "application/pdf" ++ js ";base64," ++ ?x)
    with (js "data:application/pdf;base64" ++ 44%N :: x).
  rewrite split_app by (repeat constructor; discriminate).
  rewrite split_no_separator; [reflexivity|].
  eapply List.Forall_impl;
    [|apply encode_groups_alphabet, enc_sextets_bounded].
  - intros c [Hc | Hc] E; subst c; [apply Hc; reflexivity | discriminate].
  - apply List.Forall_forall. intros c Hc. apply in_map_iff in Hc.
    destruct Hc as (b & <- & _). pose proof (Byte.to_N_bounded b). lia.
Qed.

(** X25 at a concrete input. *)
Lemma processFile_pdf_witness :
  exists data,
    processFile (mkFile (js "application/pdf") (js "cv.docx") [x25; x50; x44; x46] [])
    = Selected (BinaryInput (js "application/pdf") data)
    /\ decodeBase64 data = Ok [x25; x50; x44; x46].
Proof.
  apply (processFile_pdf
           (mkFile (js "application/pdf") (js "cv.docx") [x25; x50; x44; x46] [])).
  reflexivity.
Defined.
